(** * BackFire 0.4.0: the synchronisation engine of [src/src/backfire.js]

    A shallow embedding of the Backbone/Firebase binding and the proofs of
    its specified properties.

    The file follows the source top to bottom:
    - JavaScript values, the operators the engine applies to them
      ([==], [!=], truthiness, property keys) and the underscore helpers it
      calls;
    - the Backbone contracts the engine relies on ([Model.set],
      [Collection.add], [Collection.remove], [Collection.get]);
    - [Backbone.Firebase.Model] with its two behaviours ([SyncModel],
      [OnceModel]);
    - [Backbone.Firebase.Collection];
    - the properties.

    Modelling conventions.
    - A JavaScript object used as an attribute hash is a [gmap string value];
      only own properties are modelled.  An object or array stored as an
      attribute value is a reference [VRef r]: the engine never looks inside
      it, it only compares it.
    - Numbers are compared, never computed with; they are integers here.
    - The remote store is asynchronous: a write is an entry appended to a
      log, an incoming event is a call of the handler that the engine
      registered for it.  Local notifications are entries of a second log.
    - What the language and the libraries compute on strings and nested
      objects (string to number conversion, [ToPrimitive], deep equality of
      two distinct objects, the key generator) is a parameter, see [JsEnv].
    - The keys of a hash are visited in the order of [map_to_list], which
      is not the insertion order JavaScript follows; no statement depends
      on the order in which the keys of one hash are visited.
    - Backbone is outside the repository: [Model.set], [Collection.add],
      [Collection.remove] and [Collection.get] are written as contracts.
      The registry of a collection is read off the ids its members hold,
      see [Collection_get] for what this leaves out. *)

From Stdlib Require Import ZArith.
From stdpp Require Import gmap strings list fin_maps pretty.

Open Scope string_scope.
Open Scope list_scope.

(** ** JavaScript values *)

(** Identity of an object held as an attribute value. *)
Definition ref := positive.

Inductive prim :=
| PUndefined
| PNull
| PBool (b : bool)
| PNum (n : Z)
| PStr (s : string).

Inductive value :=
| VPrim (p : prim)
| VRef (r : ref).

Coercion VPrim : prim >-> value.

#[global] Instance prim_eq_dec : EqDecision prim.
Proof. solve_decision. Defined.

#[global] Instance value_eq_dec : EqDecision value.
Proof. solve_decision. Defined.

(** An attribute hash: [model.attributes], [model.toJSON()], a snapshot
    value that is an object, a patch. *)
Abbreviation attrs := (gmap string value).

(** What [snap.val()] returns and what a write carries: an object, or a
    scalar or [null]. *)
Inductive data :=
| DObj (o : attrs)
| DPrim (p : prim).

#[global] Instance data_eq_dec : EqDecision data.
Proof. solve_decision. Defined.

(** A remote snapshot: [snap.val()] and [snap.name()]. *)
Record snapshot := Snapshot { val : data; name : string }.

(** ** What the language and the libraries compute outside the engine *)

Class JsEnv := {
  (** [ToNumber] on a string; [None] is [NaN]. *)
  StringToNumber : string -> option Z;
  (** [ToString] on a number. *)
  NumberToString : Z -> string;
  (** [ToPrimitive] on an object. *)
  ToPrimitive : ref -> prim;
  (** [ToString] on an object. *)
  ObjectToString : ref -> string;
  (** [_.isEqual] on two distinct objects (deep comparison). *)
  isEqual_objects : ref -> ref -> bool;
  (** [firebase.ref().push().name()]: the n-th generated key. *)
  push_name : nat -> string
}.

(** An environment to run the engine on examples: objects print as
    [[object Object]] and are equal only to themselves, decimal strings
    convert to their number, the generated keys are numbered. *)
Fixpoint decimal_to_number (s : string) (acc : Z) : option Z :=
  match s with
  | EmptyString => Some acc
  | String a s' =>
      let d := (Z.of_nat (Ascii.nat_of_ascii a) - 48)%Z in
      if bool_decide (0 ≤ d ≤ 9)%Z then decimal_to_number s' (10 * acc + d)%Z
      else None
  end.

Definition example_env : JsEnv := {|
  StringToNumber := λ s, decimal_to_number s 0;
  NumberToString := pretty;
  ToPrimitive := λ _, PStr "[object Object]";
  ObjectToString := λ _, "[object Object]";
  isEqual_objects := λ _ _, false;
  push_name := λ n, "-K" +:+ pretty n
|}.

(** As [example_env], but the objects [1] and [2] have the same
    contents. *)
Definition twin_env : JsEnv := {|
  StringToNumber := λ s, decimal_to_number s 0;
  NumberToString := pretty;
  ToPrimitive := λ _, PStr "[object Object]";
  ObjectToString := λ _, "[object Object]";
  isEqual_objects := λ a b,
    bool_decide (a = 1%positive ∧ b = 2%positive) ||
    bool_decide (a = 2%positive ∧ b = 1%positive);
  push_name := λ n, "-K" +:+ pretty n
|}.

Section Engine.

Context `{JsEnv}.

(** *** Operators *)

Definition bool_to_number (b : bool) : Z := if b then 1%Z else 0%Z.

(** [ToNumber]; [None] is [NaN]. *)
Definition ToNumber (p : prim) : option Z :=
  match p with
  | PUndefined => None
  | PNull => Some 0%Z
  | PBool b => Some (bool_to_number b)
  | PNum n => Some n
  | PStr s => StringToNumber s
  end.

Definition number_eq (a b : option Z) : bool :=
  match a, b with
  | Some x, Some y => bool_decide (x = y)
  | _, _ => false
  end.

(** [x == y] on primitives (ECMAScript 5, 11.9.3). *)
Definition prim_loose_eq (x y : prim) : bool :=
  match x, y with
  | PUndefined, PUndefined | PUndefined, PNull
  | PNull, PUndefined | PNull, PNull => true
  | PUndefined, _ | PNull, _ | _, PUndefined | _, PNull => false
  | PStr s, PStr t => bool_decide (s = t)
  | _, _ => number_eq (ToNumber x) (ToNumber y)
  end.

(** [x == y]: two objects are equal when they are the same object; an
    object against a primitive is converted first. *)
Definition loose_eq (x y : value) : bool :=
  match x, y with
  | VPrim p, VPrim q => prim_loose_eq p q
  | VRef a, VRef b => bool_decide (a = b)
  | VPrim p, VRef r => prim_loose_eq p (ToPrimitive r)
  | VRef r, VPrim p => prim_loose_eq (ToPrimitive r) p
  end.

(** [x != y] *)
Definition loose_neq (x y : value) : bool := negb (loose_eq x y).

(** [typeof v === "undefined" || v === null] *)
Definition is_nullish (v : value) : bool :=
  match v with
  | VPrim PUndefined | VPrim PNull => true
  | _ => false
  end.

(** [v === void 0] *)
Definition is_undefined (v : value) : bool :=
  match v with
  | VPrim PUndefined => true
  | _ => false
  end.

(** [ToBoolean]: what [if (v)] and [!v] test. *)
Definition truthy (v : value) : bool :=
  match v with
  | VPrim PUndefined | VPrim PNull => false
  | VPrim (PBool b) => b
  | VPrim (PNum n) => negb (bool_decide (n = 0%Z))
  | VPrim (PStr s) => negb (bool_decide (s = ""))
  | VRef _ => true
  end.

(** [ToString]: the property key a value denotes. *)
Definition prim_ToString (p : prim) : string :=
  match p with
  | PUndefined => "undefined"
  | PNull => "null"
  | PBool true => "true"
  | PBool false => "false"
  | PNum n => NumberToString n
  | PStr s => s
  end.

Definition ToString (v : value) : string :=
  match v with
  | VPrim p => prim_ToString p
  | VRef r => ObjectToString r
  end.

(** [x < y] (ECMAScript 5, 11.8.5): two strings are compared as strings,
    anything else as numbers; a comparison with [NaN] is false. *)
Definition to_prim (v : value) : prim :=
  match v with
  | VPrim p => p
  | VRef r => ToPrimitive r
  end.

Definition js_lt (x y : value) : bool :=
  match to_prim x, to_prim y with
  | PStr s, PStr t => String.ltb s t
  | p, q =>
      match ToNumber p, ToNumber q with
      | Some a, Some b => bool_decide (a < b)%Z
      | _, _ => false
      end
  end.

(** [x > y] *)
Definition js_gt (x y : value) : bool := js_lt y x.

(** *** Objects as hashes *)

(** [o[key]] *)
Definition get (o : attrs) (key : string) : value :=
  default (VPrim PUndefined) (o !! key).

(** [_.has(o, key)] *)
Definition _has (o : attrs) (key : string) : bool :=
  bool_decide (is_Some (o !! key)).

(** [_.keys(o)] *)
Definition _keys (o : attrs) : list string := (map_to_list o).*1.

(** [_.uniq]: the first occurrence of every element. *)
Fixpoint _uniq (l : list string) : list string :=
  match l with
  | [] => []
  | x :: l' => x :: filter (λ y, y ≠ x) (_uniq l')
  end.

(** [_.union(a, b)] *)
Definition _union (a b : list string) : list string := _uniq (a ++ b).

(** [_.difference(a, b)] *)
Definition _difference (a b : list string) : list string :=
  filter (λ x, x ∉ b) a.

(** [_.isEqual]: primitives by type and value, an object with itself, two
    distinct objects by their contents. *)
Definition _isEqual (x y : value) : bool :=
  match x, y with
  | VPrim p, VPrim q => bool_decide (p = q)
  | VRef a, VRef b => bool_decide (a = b) || isEqual_objects a b
  | _, _ => false
  end.

(** [_.defaults(obj, source)]: fill in the properties of [obj] that are
    undefined. *)
Definition defaults_step (obj : attrs) (kv : string * value) : attrs :=
  if is_undefined (get obj kv.1) then <[kv.1 := kv.2]> obj else obj.

Definition _defaults (obj source : attrs) : attrs :=
  foldl defaults_step obj (map_to_list source).

(** ** Effects *)

(** Where a write goes: [this.firebase] of a record, or
    [this.firebase.ref().child(id)] of a collection. *)
Inductive target :=
| Self
| Child (id : value).

(** A call on the remote store. *)
Inductive write :=
| WSet (t : target) (d : data)
| WUpdate (t : target) (d : data)
| WSetWithPriority (t : target) (d : attrs) (priority : value).

(** A local notification ([trigger]). *)
Inductive event :=
| EAdd (id : value)
| ERemove (id : value)
| ESort
| EReset
| ESync
| EDestroy (id : value)
| EChangeAttr (id : value) (key : string)
| EChange (id : value).

#[global] Instance event_eq_dec : EqDecision event.
Proof. solve_decision. Defined.

Inductive exn :=
| TypeError
| Error (msg : string).

(** ** The local record (Backbone.Model) *)

Record model := Model {
  attributes : attrs;
  _previousAttributes : attrs;
  changed : attrs;
  (** the last value seen from the store; [None] is [undefined] *)
  _remoteAttributes : option attrs;
  (** [undefined] is [false] *)
  _remoteChanging : bool
}.

Definition with_attributes (a : attrs) (m : model) : model :=
  Model a (_previousAttributes m) (changed m) (_remoteAttributes m)
        (_remoteChanging m).

Definition with_previous (a : attrs) (m : model) : model :=
  Model (attributes m) a (changed m) (_remoteAttributes m) (_remoteChanging m).

Definition with_changed (a : attrs) (m : model) : model :=
  Model (attributes m) (_previousAttributes m) a (_remoteAttributes m)
        (_remoteChanging m).

Definition with_remoteAttributes (a : option attrs) (m : model) : model :=
  Model (attributes m) (_previousAttributes m) (changed m) a
        (_remoteChanging m).

Definition with_remoteChanging (state : bool) (m : model) : model :=
  Model (attributes m) (_previousAttributes m) (changed m)
        (_remoteAttributes m) state.

(** [model.id]: Backbone keeps it equal to the [id] attribute. *)
Definition id (m : model) : value := get (attributes m) "id".

(** [model.isNew()] *)
Definition isNew (m : model) : bool := is_nullish (id m).

(** [model.toJSON()]: a copy of the attributes. *)
Definition toJSON (m : model) : attrs := attributes m.

(** [model.changedAttributes()]: a copy of [model.changed], or [false]. *)
Definition changedAttributes (m : model) : data :=
  if bool_decide (changed m = ∅) then DPrim (PBool false)
  else DObj (changed m).

(** [new Backbone.Model(attributes)], for a model class with [defs] as its
    declared defaults:
    [attrs = _.defaults({}, attrs, defaults); this.set(attrs);
     this.changed = {}]. *)
Definition Backbone_Model (attributes defs : attrs) : model :=
  Model (_defaults (_defaults ∅ attributes) defs) ∅ ∅ None false.

(** *** Backbone's [set]

    One step of the loop over the attributes to set:
    [[
      if (!_.isEqual(current[attr], val)) changes.push(attr);
      if (!_.isEqual(prev[attr], val)) this.changed[attr] = val;
      else delete this.changed[attr];
      unset ? delete current[attr] : current[attr] = val;
    ]] *)
Definition set_attr (unset : bool) (st : model * list string)
    (kv : string * value) : model * list string :=
  let m := st.1 in
  let changes :=
    if _isEqual (get (attributes m) kv.1) kv.2 then st.2 else st.2 ++ [kv.1] in
  let changed' :=
    if _isEqual (get (_previousAttributes m) kv.1) kv.2
    then delete kv.1 (changed m) else <[kv.1 := kv.2]> (changed m) in
  let current :=
    if unset then delete kv.1 (attributes m)
    else <[kv.1 := kv.2]> (attributes m) in
  (with_attributes current (with_changed changed' m), changes).

(** [model.set(attrs, {unset, silent})], called while no other [set] of
    the same model is running, up to the "change" notification: the model
    after the loop, the notifications triggered ("change:attr" for every
    attribute that changed, then "change"), and whether "change" was
    triggered.  Whoever owns the model runs its "change" listener then. *)
Definition Model_set (new : attrs) (unset silent : bool) (m : model)
    : model * list event * bool :=
  let m0 := with_changed ∅ (with_previous (attributes m) m) in
  let st := foldl (set_attr unset) (m0, []) (map_to_list new) in
  if silent then (st.1, [], false)
  else
    match st.2 with
    | [] => (st.1, [], false)
    | changes =>
        (st.1, (EChangeAttr (id st.1) <$> changes) ++ [EChange (id st.1)], true)
    end.

(** [model.set(attrs, {silent: true})] called from a "change" listener,
    that is while the outer [set] is still running: the previous
    attributes and [changed] are kept, nothing is notified. *)
Definition Model_set_nested_silent (new : attrs) (m : model) : model :=
  (foldl (set_attr false) (m, []) (map_to_list new)).1.

(** How [set(key, val)] reads its arguments: nothing to do for [null], a
    hash as it is, anything else as the name of one attribute. *)
Definition set_arguments (key : data) (val : value) : option attrs :=
  match key with
  | DPrim PUndefined | DPrim PNull => None
  | DObj o => Some o
  | DPrim p => Some {[ prim_ToString p := val ]}
  end.

(** ** Backbone.Firebase.sync: syncing for once only *)

Inductive method := MRead | MCreate | MUpdate | MPatch | MDelete.

(** The writes of [Backbone.Firebase.sync(method, model, options)]; "read"
    asks the store for the value once and writes nothing. *)
Definition Firebase_sync (meth : method) (m : model) : list write :=
  let modelJSON := toJSON m in
  match meth with
  | MRead => []
  | MCreate => [WSet Self (DObj modelJSON)]
  | MUpdate => [WUpdate Self (DObj modelJSON)]
  | MPatch | MDelete => []
  end.

(** ** Backbone.Firebase.Model *)

(** A record with its engine: the model, the mode chosen at construction,
    what the constructor registered, and the two logs. *)
Record record := Record_ {
  this : model;
  autoSync : bool;
  defaults : attrs;
  (** the handler of [this.once('sync', ...)] has not run yet *)
  once_sync : bool;
  r_writes : list write;
  r_events : list event
}.

(** [_updateModel]: find the deleted keys and set their values to null. *)
Definition tombstone (modelObj : attrs) (kv : string * value) : attrs :=
  if is_nullish kv.2 then
    if bool_decide (kv.1 = "id") then delete kv.1 modelObj
    else <[kv.1 := VPrim PNull]> modelObj
  else modelObj.

Definition Model__updateModel (m : model) : data :=
  match changedAttributes m with
  | DObj modelObj => DObj (foldl tombstone modelObj (map_to_list (changed m)))
  | DPrim p => DPrim p
  end.

(** The callback of [SyncModel]: apply local changes remotely.
    [this.firebase.update(model)] *)
Definition SyncModel_cb (newModel : data) (m : model)
    : option (model * list write) :=
  Some (m, [WUpdate Self newModel]).

(** The callback of [OnceModel]: [this.set(model, { silent: true })].
    [None]: [set(false, ...)] is left out of the model; "change" is never
    notified with an empty [changed] (see [Model_set_fired_changed]). *)
Definition OnceModel_cb (newModel : data) (m : model)
    : option (model * list write) :=
  match newModel with
  | DObj o => Some (Model_set_nested_silent o m, [])
  | DPrim _ => None
  end.

(** [_listenLocalChange(cb)]: the listener it registers for "change". *)
Definition _listenLocalChange
    (cb : data -> model -> option (model * list write)) (m : model)
    : option (model * list write) :=
  let newModel := Model__updateModel m in
  cb newModel m.

(** The "change" listener of a record, by its mode. *)
Definition on_change (auto : bool) : model -> option (model * list write) :=
  if auto then _listenLocalChange SyncModel_cb
  else _listenLocalChange OnceModel_cb.

(** [this.set(attrs, options)] and [this.unset(key)] on a record. *)
Definition record_set (new : attrs) (unset silent : bool) (r : record)
    : option record :=
  let st := Model_set new unset silent (this r) in
  res ← (if st.2 then on_change (autoSync r) st.1.1 else Some (st.1.1, []));
  Some (Record_ res.1 (autoSync r) (defaults r) (once_sync r)
          (r_writes r ++ res.2) (r_events r ++ st.1.2)).

Definition record_unset (key : string) (r : record) : option record :=
  record_set {[ key := VPrim PUndefined ]} true false r.

(** What [this.url] is when the constructor looks at it, that is after
    [_.extend(this, { autoSync: true }, options)]: a string; a function -
    the one [Backbone.Model] provides when the class and the options give
    none, or one of the application - with what calling it gives, a path
    or an exception (a function that returns anything but a string is
    left out); or anything else.  [new Firebase(path)] is taken to accept
    the path. *)
Inductive url_arg :=
| UrlString (s : string)
| UrlFunction (call : exn + string)
| UrlOther.

(** [new Backbone.Firebase.Model(model, options)]: the defaults handler
    is registered, [Backbone.Model] builds the attributes, and
    [switch (typeof this.url)] makes the store reference or throws. *)
Definition Firebase_Model (model defs : attrs) (options_autoSync : option bool)
    (url : url_arg) : exn + record :=
  let this := Record_ (Backbone_Model model defs)
                (default true options_autoSync) defs true [] [] in
  match url with
  | UrlString _ => inr this
  | UrlFunction (inr _) => inr this
  | UrlFunction (inl e) => inl e
  | UrlOther => inl (Error "url parameter required")
  end.

(** [destroy] *)
Definition destroy (r : record) : record :=
  Record_ (this r) (autoSync r) (defaults r) (once_sync r)
    (r_writes r ++ [WSet Self (DPrim PNull)])
    (r_events r ++ [EDestroy (id (this r))]).

(** [_setId]: silently set the id of the model to the snapshot name. *)
Definition _setId (snap : snapshot) (r : record) : option record :=
  if isNew (this r)
  then record_set {[ "id" := VPrim (PStr (name snap)) ]} false true r
  else Some r.

(** [_processChanges]: unset the attributes that have been deleted from the
    server; the value it returns is [val snap]. *)
Definition _processChanges (snap : snapshot) (r : record) : option record :=
  r' ← match val snap with
       | DObj newModel =>
           let diff :=
             _difference (_keys (attributes (this r))) (_keys newModel) in
           foldl (λ acc key, acc ≫= record_unset key) (Some r) diff
       | DPrim _ => Some r
       end;
  _setId snap r'.

(** [_setLocal]: process changes from a snapshot and apply locally. *)
Definition _setLocal (snap : snapshot) (r : record) : option record :=
  r' ← _processChanges snap r;
  match set_arguments (val snap) (VPrim PUndefined) with
  | Some newModel => record_set newModel false false r'
  | None => Some r'
  end.

(** [this.trigger('sync', ...)]; the constructor registered, once,
    [this.set(_.defaults(this.toJSON(), defaults))]. *)
Definition trigger_sync (r : record) : option record :=
  let r' := Record_ (this r) (autoSync r) (defaults r) false
              (r_writes r) (r_events r ++ [ESync]) in
  if once_sync r
  then record_set (_defaults (toJSON (this r')) (defaults r')) false false r'
  else Some r'.

(** The handler [SyncModel] registers for "value". *)
Definition SyncModel_value (snap : snapshot) (r : record) : option record :=
  r' ← _setLocal snap r;
  trigger_sync r'.

(** A "value" event of the store at the record's path: only a record with
    autoSync has subscribed. *)
Definition remote_value (snap : snapshot) (r : record) : option record :=
  if autoSync r then SyncModel_value snap r else Some r.


(** What the application can do to the attributes of a record without
    asking for a sync: [set(attrs, {silent})], [unset(key, {silent})],
    [clear({silent})]. *)
Inductive mutation :=
| MSet (new : attrs) (silent : bool)
| MUnset (key : string) (silent : bool)
| MClear (silent : bool).

Definition mutate (mu : mutation) (r : record) : option record :=
  match mu with
  | MSet new silent => record_set new false silent r
  | MUnset key silent => record_set {[ key := VPrim PUndefined ]} true silent r
  | MClear silent =>
      record_set ((λ _, VPrim PUndefined) <$> attributes (this r)) true silent r
  end.

Definition mutations (mus : list mutation) (r : record) : option record :=
  foldl (λ acc mu, acc ≫= mutate mu) (Some r) mus.

(** How many "sync" notifications a log holds. *)
Definition syncs (es : list event) : nat :=
  length (filter (λ e, e = ESync) es).

(** ** Backbone.Firebase.Collection *)

(** The option hash of [add], [remove], [reset]; [silent] is [undefined]
    when the hash is absent or does not mention it. *)
Record options := Options { silent : value }.

Definition no_options : options := Options (VPrim PUndefined).
Definition silent_true : options := Options (VPrim (PBool true)).

Record collection := Collection {
  models : list model;
  _suppressEvent : bool;
  (** how many keys [push()] has generated *)
  pushed : nat;
  writes : list write;
  events : list event
}.

Definition with_models (ms : list model) (c : collection) : collection :=
  Collection ms (_suppressEvent c) (pushed c) (writes c) (events c).

Definition with_suppressEvent (b : bool) (c : collection) : collection :=
  Collection (models c) b (pushed c) (writes c) (events c).

Definition log_writes (ws : list write) (c : collection) : collection :=
  Collection (models c) (_suppressEvent c) (pushed c) (writes c ++ ws)
    (events c).

Definition trigger (es : list event) (c : collection) : collection :=
  Collection (models c) (_suppressEvent c) (pushed c) (writes c)
    (events c ++ es).

(** *** Handlers are state transformers that may throw *)

Definition M (A : Type) : Type := collection -> (exn + A) * collection.

Definition ret {A} (a : A) : M A := λ c, (inr a, c).

Definition bind {A B} (x : M A) (f : A -> M B) : M B :=
  λ c, match x c with
       | (inl e, c') => (inl e, c')
       | (inr a, c') => f a c'
       end.

Definition throw {A} (e : exn) : M A := λ c, (inl e, c).

Definition gets {A} (f : collection -> A) : M A := λ c, (inr (f c), c).

Definition modify (f : collection -> collection) : M unit := λ c, (inr tt, f c).

Notation "x <- c1 ;; c2" := (bind c1 (λ x, c2))
  (at level 100, c1 at next level, right associativity).
Notation "c1 ;; c2" := (bind c1 (λ _, c2))
  (at level 100, right associativity).

(** [for (...) body] and [_.each(list, body)] *)
Fixpoint each {A} (l : list A) (body : A -> M unit) : M unit :=
  match l with
  | [] => ret tt
  | x :: l' => body x ;; each l' body
  end.

(** *** The Backbone.Collection contract *)

(** [collection.get(id)]: the member registered under the key of [id].
    Backbone keeps the registry in [_byId]; here a member is registered
    under the key of the [id] it holds.  The second key of every member
    in [_byId], its client id ([cid]), and what [get] tries when this key
    gives nothing ([_byId[obj.id]], [_byId[obj.cid]]) are not part of this
    contract. *)
Definition registered_as (v : value) (m : model) : bool :=
  negb (is_nullish (id m)) && bool_decide (ToString (id m) = ToString v).

Definition Collection_get (v : value) (ms : list model)
    : option (nat * model) :=
  if is_nullish v then None else list_find (λ m, registered_as v m) ms.

(** [comparator]: the collection is kept sorted by id. *)
Definition comparator (m : model) : value := id m.

(** [_.sortBy]: [left] must come after [right]
    ([a !== b && (a > b || a === void 0)]); otherwise the earlier stays
    first. *)
Definition sorts_after (a b : value) : bool :=
  negb (bool_decide (a = b)) && (js_gt a b || is_undefined a).

Fixpoint insert_sorted (x : model) (l : list model) : list model :=
  match l with
  | [] => [x]
  | y :: l' =>
      if sorts_after (comparator y) (comparator x) then x :: y :: l'
      else y :: insert_sorted x l'
  end.

Definition sortBy (l : list model) : list model :=
  foldl (λ acc x, insert_sorted x acc) [] l.

(** [Backbone.Collection.prototype.add(model, options)] for one attribute
    hash: a member with the same id is left as it is; otherwise a
    [Backbone.Model] is built from the hash and inserted, and "add" then
    "sort" are triggered unless [options.silent]. *)
Definition Backbone_Collection_add (model : attrs) (o : options)
    (c : collection) : collection :=
  match Collection_get (get model "id") (models c) with
  | Some _ => c
  | None =>
      let m := Backbone_Model model ∅ in
      let c' := with_models (sortBy (models c ++ [m])) c in
      if truthy (silent o) then c' else trigger [EAdd (id m); ESort] c'
  end.

(** [Backbone.Collection.prototype.remove(model, options)] for one attribute
    hash: the member with that id is taken out, and "remove" is triggered
    unless [options.silent]. *)
Definition Backbone_Collection_remove (model : attrs) (o : options)
    (c : collection) : collection :=
  match Collection_get (get model "id") (models c) with
  | None => c
  | Some (i, m) =>
      let c' := with_models (delete i (models c)) c in
      if truthy (silent o) then c' else trigger [ERemove (id m)] c'
  end.

(** [f.apply(thisArg, argsArray, ...)]: [f] is called with the elements of
    [argsArray] as its arguments, here [[model]] or [[model, options]];
    what is handed to [apply] after [argsArray] does not reach [f]. *)
Definition Function_apply (f : attrs -> options -> collection -> collection)
    (argsArray : attrs * option options) (third : option options)
    : collection -> collection :=
  f argsArray.1 (default no_options argsArray.2).

(** *** Local to remote *)

(** An element of the array given to [add] and [remove] - the array
    itself when it is one, [[models]] otherwise, so that a call without
    argument gives [[Scalar PUndefined]]: a plain hash, a model (anything
    with a [toJSON] function), or [undefined], [null] or a scalar. *)
Inductive model_arg :=
| Raw (o : attrs)
| Instance (m : model)
| Scalar (p : prim).

(** One round of the loop of [_parseModels].  On [undefined] and [null]
    the read [model.toJSON] throws.  A scalar has no [toJSON] and no [id]:
    the key is generated, and the assignment of [model.id] then throws, as
    this is strict code. *)
Definition _parseModels_step (acc : M (list attrs)) (m : model_arg)
    : M (list attrs) :=
  ret_ <- acc ;;
  let keep (model : attrs) : M (list attrs) :=
    if truthy (get model "id") then ret (ret_ ++ [model])
    else
      n <- gets pushed ;;
      modify (λ c, Collection (models c) (_suppressEvent c) (S n)
                     (writes c) (events c)) ;;
      ret (ret_ ++ [<["id" := VPrim (PStr (push_name n))]> model]) in
  match m with
  | Raw o => keep o
  | Instance m => keep (toJSON m)
  | Scalar PUndefined | Scalar PNull => throw TypeError
  | Scalar _ =>
      n <- gets pushed ;;
      modify (λ c, Collection (models c) (_suppressEvent c) (S n)
                     (writes c) (events c)) ;;
      throw TypeError
  end.

Definition _parseModels (ms : list model_arg) : M (list attrs) :=
  foldl _parseModels_step (ret []) ms.

(** [add]: [childRef.set(model, ...)] for every parsed model. *)
Definition add (ms : list model_arg) (o : options) : M (list attrs) :=
  parsed <- _parseModels ms ;;
  each parsed (λ model,
    (if bool_decide (silent o = VPrim (PBool true))
     then modify (with_suppressEvent true) else ret tt) ;;
    modify (log_writes [WSet (Child (get model "id")) (DObj model)])) ;;
  ret parsed.

(** [remove]: [childRef.set(null, ...)] for every parsed model. *)
Definition remove (ms : list model_arg) (o : options) : M (list attrs) :=
  parsed <- _parseModels ms ;;
  each parsed (λ model,
    (if bool_decide (silent o = VPrim (PBool true))
     then modify (with_suppressEvent true) else ret tt) ;;
    modify (log_writes [WSet (Child (get model "id")) (DPrim PNull)])) ;;
  ret parsed.

(** [create(model, options)] for a [model] that is an instance of
    [Backbone.Model]: [_prepareModel] returns such a model as it is, so
    [if (!model) return false] is not taken, and [set[0]] is returned.
    The call with a plain hash, of which [_prepareModel] makes an instance
    of the collection's model class or [false], is left out. *)
Definition create (model : model) (o : options) : M data :=
  set <- add [Instance model] o ;;
  ret (match head set with
       | Some written => DObj written
       | None => DPrim PUndefined
       end).

(** [reset]: remove all models remotely, add the new ones, trigger
    "reset". *)
Definition reset (ms : list model_arg) (o : options) : M (list attrs) :=
  current <- gets models ;;
  remove (Instance <$> current) silent_true ;;
  ret_ <- add ms silent_true ;;
  (if truthy (silent o) then ret tt else modify (trigger [EReset])) ;;
  ret ret_.

(** [_preventSync(model, state)], for the member at position [i]. *)
Definition _preventSync (i : nat) (state : bool) : M unit :=
  modify (λ c, with_models (alter (with_remoteChanging state) i (models c)) c).

(** [_updateModel], the listener of "change" on the collection: the
    writes it issues for a member that changed. *)
Definition diff_step (remoteAttributes localAttributes updateAttributes : attrs)
    (key : string) : attrs :=
  if negb (_has localAttributes key)
  then <[key := VPrim PNull]> updateAttributes
  else if loose_neq (get localAttributes key) (get remoteAttributes key)
  then <[key := get localAttributes key]> updateAttributes
  else updateAttributes.

Definition diff (remoteAttributes localAttributes : attrs) : attrs :=
  foldl (diff_step remoteAttributes localAttributes) ∅
    (_union (_keys remoteAttributes) (_keys localAttributes)).

Definition Collection__updateModel (m : model) : list write :=
  if _remoteChanging m then []
  else
    let remoteAttributes := default ∅ (_remoteAttributes m) in
    let localAttributes := toJSON m in
    let updateAttributes := diff remoteAttributes localAttributes in
    if bool_decide (size updateAttributes = 0) then []
    else if _has updateAttributes ".priority"
    then
      let priority := get localAttributes ".priority" in
      [WSetWithPriority (Child (id m)) (delete ".priority" localAttributes)
         priority]
    else [WUpdate (Child (id m)) (DObj updateAttributes)].

(** [_removeModel]: triggered when [destroy] is called on a member. *)
Definition _removeModel (m : model) : M unit :=
  modify (log_writes [WSet (Child (id m)) (DPrim PNull)]).

(** [item.set(attrs)] and [item.unset(key)] for the member at position [i];
    its notifications reach the collection, whose "change" listener is
    [_updateModel]. *)
Definition item_set (i : nat) (new : attrs) (unset silent : bool) : M unit :=
  ms <- gets models ;;
  match ms !! i with
  | None => ret tt
  | Some item =>
      let st := Model_set new unset silent item in
      modify (with_models (<[i := st.1.1]> ms)) ;;
      modify (trigger st.1.2) ;;
      if st.2 then modify (log_writes (Collection__updateModel st.1.1))
      else ret tt
  end.

(** *** Remote to local *)

(** [if (!model.id) model.id = snap.name();] on an object. *)
Definition with_id (model : attrs) (nm : string) : attrs :=
  if truthy (get model "id") then model
  else <["id" := VPrim (PStr nm)]> model.

(** [var model = snap.val(); if (!model.id) model.id = snap.name();]
    Reading a property of [null] throws; so does, in strict code, creating
    a property on a scalar. *)
Definition model_with_id (snap : snapshot) : M attrs :=
  match val snap with
  | DObj model => ret (with_id model (name snap))
  | DPrim _ => throw TypeError
  end.

(** [_.find(this.models, function(child) { return child.id == wanted; })] *)
Definition find_model (wanted : value) (ms : list model)
    : option (nat * model) :=
  list_find (λ child, loose_eq (id child) wanted) ms.

(** [_childAdded]: a scalar is replaced by [{}] before it gets its id;
    the member is then added through
    [Backbone.Collection.prototype.add.apply(this, [model], {silent: true})]
    when an echo is awaited, and through [add.apply(this, [model])]
    otherwise; last, [this.get(model.id)._remoteAttributes = model]. *)
Definition _childAdded (snap : snapshot) : M unit :=
  model <- match val snap with
           | DObj model => ret (with_id model (name snap))
           | DPrim PUndefined | DPrim PNull => throw TypeError
           | DPrim _ => ret (<["id" := VPrim (PStr (name snap))]> ∅)
           end ;;
  suppress <- gets _suppressEvent ;;
  (if suppress then
     modify (with_suppressEvent false) ;;
     modify (Function_apply Backbone_Collection_add (model, None)
               (Some silent_true))
   else
     modify (Function_apply Backbone_Collection_add (model, None) None)) ;;
  ms <- gets models ;;
  match Collection_get (get model "id") ms with
  | None => throw TypeError
  | Some (i, _) =>
      modify (with_models (alter (with_remoteAttributes (Some model)) i ms))
  end.

(** [_childMoved] only logs. *)
Definition _childMoved (snap : snapshot) : M unit := ret tt.

(** [_childChanged]: find the member, then, between
    [_preventSync(item, true)] and [_preventSync(item, false)], record the
    snapshot, unset the attributes it lacks and set the others. *)
Definition _childChanged (snap : snapshot) : M unit :=
  model <- model_with_id snap ;;
  ms <- gets models ;;
  match find_model (get model "id") ms with
  | None =>
      throw (Error ("Could not find model with ID " +:+
                    ToString (get model "id")))
  | Some (i, item) =>
      _preventSync i true ;;
      modify (λ c, with_models
                (alter (with_remoteAttributes (Some model)) i (models c)) c) ;;
      let diff := _difference (_keys (attributes item)) (_keys model) in
      each diff (λ key, item_set i {[ key := VPrim PUndefined ]} true false) ;;
      item_set i model false false ;;
      _preventSync i false
  end.

(** [_childRemoved]: as [_childAdded], with
    [Backbone.Collection.prototype.remove.apply]. *)
Definition _childRemoved (snap : snapshot) : M unit :=
  model <- model_with_id snap ;;
  suppress <- gets _suppressEvent ;;
  if suppress then
    modify (with_suppressEvent false) ;;
    modify (Function_apply Backbone_Collection_remove (model, None)
              (Some silent_true))
  else
    modify (Function_apply Backbone_Collection_remove (model, None) None).

(** [new Backbone.Firebase.Collection()] bound to a store reference:
    nothing is suppressed by default. *)
Definition Firebase_Collection : collection := Collection [] false 0 [] [].

(** ** Vocabulary of the properties *)

(** What the visit of [key] leaves in the patch. *)
Definition patch_entry (remote local : attrs) (key : string) : option value :=
  match local !! key with
  | None => Some (VPrim PNull)
  | Some v => if loose_neq v (get remote key) then Some v else None
  end.

(** The state in which [Model_set] runs its loop. *)
Definition set_start (m : model) : model * list string :=
  (with_changed ∅ (with_previous (attributes m) m), []).

(** What stays across the calls of [set] that the engine makes: the mode,
    the declared defaults, the registration of the defaults handler, and
    the number of "sync" notifications. *)
Definition same_engine (r r' : record) : Prop :=
  autoSync r' = autoSync r ∧ defaults r' = defaults r ∧
  once_sync r' = once_sync r ∧ syncs (r_events r') = syncs (r_events r).

(** A handler that does not look at [_suppressEvent]: it does the same
    whatever the flag is, and leaves the flag as it is. *)
Definition flag_blind {A} (x : M A) : Prop :=
  ∀ b c, x (with_suppressEvent b c)
         = ((x c).1, with_suppressEvent b (x c).2).

(** [model.toJSON ? model.toJSON() : model], the hash [_parseModels] reads
    from an element of its array. *)
Definition arg_json (m : model_arg) : attrs :=
  match m with Raw o => o | Instance m => toJSON m | Scalar _ => ∅ end.

(** The elements [_parseModels] can give an id: hashes and models. *)
Definition is_hash (m : model_arg) : bool :=
  match m with Scalar _ => false | _ => true end.

(** How an element and the hash parsed from it are related, when the keys
    generated during the parse are those from [lo] up to [hi]. *)
Definition parsed_from (lo hi : nat) (m : model_arg) (model : attrs) : Prop :=
  (truthy (get (arg_json m) "id") = true ∧ model = arg_json m) ∨
  (truthy (get (arg_json m) "id") = false ∧
   ∃ j, (lo ≤ j < hi)%nat ∧
        model = <["id" := VPrim (PStr (push_name j))]> (arg_json m)).

Definition with_pushed (n : nat) (c : collection) : collection :=
  Collection (models c) (_suppressEvent c) n (writes c) (events c).

(** The flag after a loop of [add] or [remove] over [parsed], started with
    the flag [b]: raised when the caller asked for silence and the loop
    ran at least once. *)
Definition flag_after (o : options) (parsed : list attrs) (b : bool) : bool :=
  if bool_decide (silent o = VPrim (PBool true)) && bool_decide (parsed ≠ [])
  then true else b.

(** The keys under which the members are registered ([_byId]). *)
Definition registered_key (m : model) : option string :=
  if is_nullish (id m) then None else Some (ToString (id m)).

Definition registered_keys (ms : list model) : list string :=
  omap registered_key ms.

(** No two members are registered under the same key. *)
Definition unique_ids (c : collection) : Prop :=
  NoDup (registered_keys (models c)).

(** What [_updateModel] of a record puts in the patch for an attribute
    listed in [changed] with the value [v]. *)
Definition tombstone_entry (k : string) (v : value) : option value :=
  if is_nullish v
  then (if decide (k = "id") then None else Some (VPrim PNull))
  else Some v.

(** What a record holds after the snapshot [A] named [nm] was applied. *)
Definition mirrored (A : attrs) (nm : string) : attrs :=
  if _has A "id" then A else <["id" := VPrim (PStr nm)]> A.

(** [_.defaults(obj, source)], key by key. *)
Definition defaulted (obj source : attrs) (k : string) : option value :=
  if is_undefined (get obj k)
  then match source !! k with Some d => Some d | None => obj !! k end
  else obj !! k.

(** The keys that have the form of a client id: the letter c (code 99)
    followed by decimal digits (codes 48 to 57), as [_.uniqueId('c')]
    makes them. *)
Fixpoint all_digits (s : string) : bool :=
  match s with
  | EmptyString => true
  | String a s' =>
      bool_decide (48 ≤ Ascii.nat_of_ascii a ≤ 57)%nat && all_digits s'
  end.

Definition cid_shaped (s : string) : bool :=
  match s with
  | String c (String a s') =>
      bool_decide (Ascii.nat_of_ascii c = 99)%nat && all_digits (String a s')
  | _ => false
  end.

End Engine.

(** ** Data for the examples *)

Definition str (s : string) : value := VPrim (PStr s).
Definition num (n : Z) : value := VPrim (PNum n).

(** The record [{id: "x", name: "a"}], the member a "child_added" event
    makes of it, and a collection that holds this member only. *)
Definition ex_x : attrs := {[ "id" := str "x"; "name" := str "a" ]}.

Definition ex_member (remoteChanging : bool) : model :=
  Model ex_x ∅ ∅ (Some ex_x) remoteChanging.

Definition ex_collection (remoteChanging suppress : bool) : collection :=
  Collection [ex_member remoteChanging] suppress 0 [] [].

(** Records bound to a store path, built without attributes from a model
    class that declares the default [{color: "red"}]: one with autoSync,
    one without; [remoteChanging] sets the flag on them. *)
Definition ex_record (auto : bool) (remoteChanging : bool) : record :=
  Record_ (Model {[ "color" := str "red" ]} ∅ ∅ None remoteChanging) auto
    {[ "color" := str "red" ]} true [] [].

(** A snapshot and local attributes that differ: [a] is gone, [c] has
    another value, [b] is the same. *)
Definition ex_remote : attrs := {[ "a" := num 1; "b" := num 2; "c" := num 3 ]}.
Definition ex_local : attrs := {[ "b" := num 2; "c" := num 4 ]}.




(** A record with autoSync at the path ["abc"] after its first "value"
    event: it holds [{id: "abc", color: "red", name: "a"}] and the defaults
    handler has run. *)
Definition ex_synced : record :=
  Record_ (Model {[ "id" := str "abc"; "color" := str "red";
                    "name" := str "a" ]} ∅ ∅ None false)
    true {[ "color" := str "red" ]} false [] [].


(** * Properties *)

Section Properties.

Context `{JsEnv}.

(** ** Hashes and the underscore helpers *)

Lemma elem_of_keys (o : attrs) (k : string) : k ∈ _keys o ↔ is_Some (o !! k).
Proof.
  unfold _keys. rewrite list_elem_of_fmap. split.
  - intros [[k' v] [-> Hin]]. apply elem_of_map_to_list in Hin. eauto.
  - intros [v Hv]. exists (k, v). split; [done|]. by apply elem_of_map_to_list.
Qed.

Lemma elem_of_uniq (l : list string) (x : string) : x ∈ _uniq l ↔ x ∈ l.
Proof.
  induction l as [|y l IH]; simpl; [done|].
  rewrite !elem_of_cons, list_elem_of_filter, IH.
  destruct (decide (x = y)); tauto.
Qed.

Lemma elem_of_union_list (a b : list string) (x : string) :
  x ∈ _union a b ↔ x ∈ a ∨ x ∈ b.
Proof. unfold _union. by rewrite elem_of_uniq, elem_of_app. Qed.

Lemma elem_of_difference_list (a b : list string) (x : string) :
  x ∈ _difference a b ↔ x ∈ a ∧ x ∉ b.
Proof. unfold _difference. rewrite list_elem_of_filter. tauto. Qed.

Lemma has_true (o : attrs) (k : string) : _has o k = true ↔ is_Some (o !! k).
Proof. unfold _has. by rewrite bool_decide_eq_true. Qed.

Lemma has_false (o : attrs) (k : string) : _has o k = false ↔ o !! k = None.
Proof.
  unfold _has. rewrite bool_decide_eq_false. by rewrite eq_None_not_Some.
Qed.

Lemma get_Some (o : attrs) (k : string) (v : value) :
  o !! k = Some v → get o k = v.
Proof. unfold get. by intros ->. Qed.

Lemma get_None (o : attrs) (k : string) :
  o !! k = None → get o k = VPrim PUndefined.
Proof. unfold get. by intros ->. Qed.

(** ** [==] *)

Lemma prim_loose_eq_refl (p : prim) : prim_loose_eq p p = true.
Proof.
  destruct p as [| |b|n|s]; simpl; try done.
  - by rewrite bool_decide_eq_true.
  - by rewrite bool_decide_eq_true.
  - by rewrite bool_decide_eq_true.
Qed.

Lemma loose_eq_refl (v : value) : loose_eq v v = true.
Proof.
  destruct v as [p|r]; simpl.
  - apply prim_loose_eq_refl.
  - by rewrite bool_decide_eq_true.
Qed.

Lemma loose_neq_irrefl (v : value) : loose_neq v v = false.
Proof. unfold loose_neq. by rewrite loose_eq_refl. Qed.

(** ** The patch of [_updateModel] *)

Lemma diff_step_lookup (remote local upd : attrs) (key k : string) :
  diff_step remote local upd key !! k =
  if decide (k = key)
  then from_option Some (upd !! k) (patch_entry remote local key)
  else upd !! k.
Proof.
  unfold diff_step, patch_entry.
  destruct (local !! key) as [v|] eqn:Hl.
  - assert (_has local key = true) as -> by (apply has_true; eauto). simpl.
    rewrite (get_Some _ _ _ Hl).
    destruct (loose_neq v (get remote key)); simpl.
    + rewrite lookup_insert.
      destruct (decide (key = k)), (decide (k = key)); congruence.
    + by destruct (decide (k = key)) as [->|].
  - assert (_has local key = false) as -> by (by apply has_false). simpl.
    rewrite lookup_insert.
    destruct (decide (key = k)), (decide (k = key)); congruence.
Qed.

Lemma diff_fold_lookup (remote local : attrs) (ks : list string)
    (upd : attrs) (k : string) :
  foldl (diff_step remote local) upd ks !! k =
  if decide (k ∈ ks)
  then from_option Some (upd !! k) (patch_entry remote local k)
  else upd !! k.
Proof.
  revert upd. induction ks as [|key ks IH]; intros upd; cbn [foldl].
  - rewrite decide_False; [done|]. apply not_elem_of_nil.
  - rewrite IH, diff_step_lookup.
    destruct (decide (k = key)) as [->|Hne].
    + rewrite (decide_True (P := key ∈ key :: ks)) by left.
      destruct (decide (key ∈ ks)); [|done].
      by destruct (patch_entry remote local key).
    + destruct (decide (k ∈ ks)) as [Hin|Hin].
      * by rewrite decide_True by (by right).
      * rewrite decide_False; [done|]. rewrite elem_of_cons. tauto.
Qed.

(** The patch, key by key. *)
Lemma diff_lookup (remote local : attrs) (k : string) :
  diff remote local !! k =
  match local !! k with
  | Some v => if loose_neq v (get remote k) then Some v else None
  | None => if _has remote k then Some (VPrim PNull) else None
  end.
Proof.
  unfold diff. rewrite diff_fold_lookup, lookup_empty. unfold patch_entry.
  destruct (local !! k) as [v|] eqn:Hl.
  - rewrite decide_True.
    + by destruct (loose_neq v (get remote k)).
    + apply elem_of_union_list. right. apply elem_of_keys. eauto.
  - destruct (_has remote k) eqn:Hr.
    + rewrite decide_True; [done|].
      apply elem_of_union_list. left. apply elem_of_keys. by apply has_true.
    + rewrite decide_False; [done|].
      rewrite elem_of_union_list, !elem_of_keys. apply has_false in Hr.
      rewrite Hl, Hr. intros [[? ?]|[? ?]]; done.
Qed.

(** C3, as the code has it.  The patch computed from a remote snapshot
    and the local attributes: a key of the snapshot that the local
    attributes lack is mapped to [null]; a key of both whose values differ
    is mapped to the local value; a key of both whose values are equal is
    not in the patch - where "differ" and "equal" are JavaScript's [!=]
    and [==]: scalars are compared after conversion, and two objects are
    equal only when they are the same object. *)
Theorem diff_tombstones_changes_and_omits (remote local : attrs) :
  (∀ k, is_Some (remote !! k) → local !! k = None →
        diff remote local !! k = Some (VPrim PNull)) ∧
  (∀ k v w, remote !! k = Some w → local !! k = Some v →
            loose_neq v w = true → diff remote local !! k = Some v) ∧
  (∀ k v w, remote !! k = Some w → local !! k = Some v →
            loose_eq v w = true → diff remote local !! k = None) ∧
  (∀ k a b, remote !! k = Some (VRef a) → local !! k = Some (VRef b) →
            diff remote local !! k =
            if decide (a = b) then None else Some (VRef b)).
Proof.
  repeat split.
  - intros k Hr Hl. rewrite diff_lookup, Hl.
    by apply has_true in Hr as ->.
  - intros k v w Hr Hl Hne. rewrite diff_lookup, Hl, (get_Some _ _ _ Hr).
    by rewrite Hne.
  - intros k v w Hr Hl Heq. rewrite diff_lookup, Hl, (get_Some _ _ _ Hr).
    unfold loose_neq. by rewrite Heq.
  - intros k a b Hr Hl. rewrite diff_lookup, Hl, (get_Some _ _ _ Hr).
    unfold loose_neq, loose_eq. by case_bool_decide; case_decide.
Qed.

(** ** Backbone's [set] *)

Lemma set_attr_frame (unset : bool) (st : model * list string)
    (kv : string * value) :
  _previousAttributes (set_attr unset st kv).1 = _previousAttributes st.1 ∧
  _remoteAttributes (set_attr unset st kv).1 = _remoteAttributes st.1 ∧
  _remoteChanging (set_attr unset st kv).1 = _remoteChanging st.1.
Proof. done. Qed.

Lemma set_attr_fold_frame (unset : bool) (l : list (string * value))
    (st : model * list string) :
  _previousAttributes (foldl (set_attr unset) st l).1
    = _previousAttributes st.1 ∧
  _remoteAttributes (foldl (set_attr unset) st l).1 = _remoteAttributes st.1 ∧
  _remoteChanging (foldl (set_attr unset) st l).1 = _remoteChanging st.1.
Proof.
  revert st. induction l as [|kv l IH]; intros st; cbn [foldl]; [done|].
  destruct (IH (set_attr unset st kv)) as (-> & -> & ->).
  apply set_attr_frame.
Qed.

(** The attributes after the loop: every listed attribute is set (or
    deleted), the others are kept. *)
Lemma set_attr_fold_attributes (unset : bool) (l : list (string * value))
    (st : model * list string) (k : string) :
  NoDup l.*1 →
  attributes (foldl (set_attr unset) st l).1 !! k =
  match (list_to_map l : attrs) !! k with
  | Some v => if unset then None else Some v
  | None => attributes st.1 !! k
  end.
Proof.
  revert st. induction l as [|[k0 v0] l IH]; intros st Hnd; cbn [foldl].
  - simpl. by rewrite lookup_empty.
  - apply NoDup_cons in Hnd as [Hk0 Hnd]. rewrite (IH _ Hnd).
    cbn [list_to_map foldr uncurry]. cbn [fst snd] in *.
    destruct (decide (k = k0)) as [->|Hne].
    + rewrite (not_elem_of_list_to_map_1 _ _ Hk0), lookup_insert_eq.
      unfold set_attr; cbn [fst snd attributes with_attributes].
      destruct unset; [apply lookup_delete_eq | apply lookup_insert_eq].
    + rewrite (lookup_insert_ne _ k0 k) by done.
      destruct (list_to_map l !! k); [done|].
      unfold set_attr; cbn [fst snd attributes with_attributes].
      destruct unset;
        [by rewrite lookup_delete_ne | by rewrite lookup_insert_ne].
Qed.

(** The attributes whose value changed: exactly those listed with a value
    that is not [_.isEqual] to the current one. *)
Lemma set_attr_fold_changes (unset : bool) (l : list (string * value))
    (st : model * list string) (k : string) :
  NoDup l.*1 →
  k ∈ (foldl (set_attr unset) st l).2 ↔
  k ∈ st.2 ∨ ∃ v, (k, v) ∈ l ∧ _isEqual (get (attributes st.1) k) v = false.
Proof.
  revert st. induction l as [|[k0 v0] l IH]; intros st Hnd; cbn [foldl].
  - split; [by left|]. intros [?|(v & Hin & _)]; [done|].
    by apply elem_of_nil in Hin.
  - apply NoDup_cons in Hnd as [Hk0 Hnd]. rewrite (IH _ Hnd).
    cbn [fst snd] in *.
    assert (∀ v, (k, v) ∈ l → k ≠ k0) as Hother.
    { intros v Hin ->. apply Hk0. apply list_elem_of_fmap.
      by exists (k0, v). }
    assert (∀ v, (k, v) ∈ l →
              get (attributes (set_attr unset st (k0, v0)).1) k
              = get (attributes st.1) k) as Hget.
    { intros v Hin. specialize (Hother v Hin).
      unfold set_attr, get; cbn [fst snd attributes with_attributes].
      destruct unset;
        [by rewrite lookup_delete_ne | by rewrite lookup_insert_ne]. }
    unfold set_attr at 1; cbn [fst snd].
    split.
    + intros [Hin|(v & Hin & Hv)].
      * destruct (_isEqual (get (attributes st.1) k0) v0) eqn:He.
        -- by left.
        -- apply elem_of_app in Hin as [Hin|Hin]; [by left|].
           apply list_elem_of_singleton in Hin as ->.
           right. exists v0. split; [left|done].
      * right. exists v. split; [by right|]. by rewrite <- (Hget v Hin).
    + intros [Hin|(v & Hin & Hv)].
      * left. destruct (_isEqual (get (attributes st.1) k0) v0); [done|].
        apply elem_of_app. by left.
      * apply elem_of_cons in Hin as [Heq|Hin].
        -- injection Heq as -> ->. left. rewrite Hv.
           apply elem_of_app. right. by apply list_elem_of_singleton.
        -- right. exists v. split; [done|]. by rewrite (Hget v Hin).
Qed.

(** [changed] after the loop: the listed attributes that differ from the
    previous attributes. *)
Lemma set_attr_fold_changed (unset : bool) (l : list (string * value))
    (st : model * list string) (k : string) :
  NoDup l.*1 →
  changed (foldl (set_attr unset) st l).1 !! k =
  match (list_to_map l : attrs) !! k with
  | Some v =>
      if _isEqual (get (_previousAttributes st.1) k) v then None else Some v
  | None => changed st.1 !! k
  end.
Proof.
  revert st. induction l as [|[k0 v0] l IH]; intros st Hnd; cbn [foldl].
  - simpl. by rewrite lookup_empty.
  - apply NoDup_cons in Hnd as [Hk0 Hnd]. rewrite (IH _ Hnd).
    cbn [list_to_map foldr uncurry]. cbn [fst snd] in *.
    destruct (decide (k = k0)) as [->|Hne].
    + rewrite (not_elem_of_list_to_map_1 _ _ Hk0), lookup_insert_eq.
      unfold set_attr; cbn [fst snd changed with_attributes with_changed].
      destruct (_isEqual (get (_previousAttributes st.1) k0) v0);
        [apply lookup_delete_eq | apply lookup_insert_eq].
    + rewrite (lookup_insert_ne _ k0 k) by done.
      destruct (list_to_map l !! k) as [v|].
      * by destruct (set_attr_frame unset st (k0, v0)) as (-> & _).
      * unfold set_attr; cbn [fst snd changed with_attributes with_changed].
        destruct (_isEqual (get (_previousAttributes st.1) k0) v0);
          [by rewrite lookup_delete_ne | by rewrite lookup_insert_ne].
Qed.

Lemma Model_set_model (new : attrs) (unset silent : bool) (m : model) :
  (Model_set new unset silent m).1.1
  = (foldl (set_attr unset) (set_start m) (map_to_list new)).1.
Proof.
  unfold Model_set, set_start. destruct silent; [done|].
  by destruct (foldl _ _ _).2.
Qed.

Lemma Model_set_attributes (new : attrs) (unset silent : bool) (m : model)
    (k : string) :
  attributes (Model_set new unset silent m).1.1 !! k =
  match new !! k with
  | Some v => if unset then None else Some v
  | None => attributes m !! k
  end.
Proof.
  rewrite Model_set_model, set_attr_fold_attributes
    by apply NoDup_fst_map_to_list.
  by rewrite list_to_map_to_list.
Qed.

Lemma Model_set_frame (new : attrs) (unset silent : bool) (m : model) :
  _remoteAttributes (Model_set new unset silent m).1.1 = _remoteAttributes m ∧
  _remoteChanging (Model_set new unset silent m).1.1 = _remoteChanging m.
Proof.
  rewrite Model_set_model.
  by destruct (set_attr_fold_frame unset (map_to_list new) (set_start m))
    as (_ & -> & ->).
Qed.

Lemma Model_set_changed (new : attrs) (unset silent : bool) (m : model)
    (k : string) :
  changed (Model_set new unset silent m).1.1 !! k =
  match new !! k with
  | Some v => if _isEqual (get (attributes m) k) v then None else Some v
  | None => None
  end.
Proof.
  rewrite Model_set_model, set_attr_fold_changed
    by apply NoDup_fst_map_to_list.
  by rewrite list_to_map_to_list.
Qed.

(** "change" is triggered exactly when an attribute got a value that is
    not [_.isEqual] to the one it had. *)
Lemma Model_set_fired_iff (new : attrs) (unset silent : bool) (m : model) :
  (Model_set new unset silent m).2 = true ↔
  silent = false ∧
  ∃ k v, new !! k = Some v ∧ _isEqual (get (attributes m) k) v = false.
Proof.
  assert ((foldl (set_attr unset) (set_start m) (map_to_list new)).2 ≠ [] ↔
          ∃ k v, new !! k = Some v ∧ _isEqual (get (attributes m) k) v = false)
    as Hchanges.
  { split.
    - intros Hne.
      destruct (foldl (set_attr unset) (set_start m) (map_to_list new)).2
        as [|k ks] eqn:Hst; [done|].
      assert (k ∈ (foldl (set_attr unset) (set_start m) (map_to_list new)).2)
        as Hin by (rewrite Hst; left).
      apply set_attr_fold_changes in Hin; [|apply NoDup_fst_map_to_list].
      destruct Hin as [Hin|(v & Hin & Hv)]; [by apply elem_of_nil in Hin|].
      exists k, v. split; [|done]. by apply elem_of_map_to_list.
    - intros (k & v & Hk & Hv) Hnil.
      assert (k ∈ (foldl (set_attr unset) (set_start m) (map_to_list new)).2)
        as Hin.
      { apply set_attr_fold_changes; [apply NoDup_fst_map_to_list|].
        right. exists v. split; [|done]. by apply elem_of_map_to_list. }
      rewrite Hnil in Hin. by apply elem_of_nil in Hin. }
  rewrite <- Hchanges. unfold Model_set, set_start.
  destruct silent; [simpl; intuition congruence|].
  destruct (foldl _ _ _).2; simpl; intuition congruence.
Qed.

(** When "change" is triggered, [changed] is not empty: the listener never
    sees [changedAttributes()] return [false]. *)
Lemma Model_set_fired_changed (new : attrs) (unset silent : bool) (m : model) :
  (Model_set new unset silent m).2 = true →
  changed (Model_set new unset silent m).1.1 ≠ ∅.
Proof.
  intros (_ & k & v & Hk & Hv)%Model_set_fired_iff Hempty.
  pose proof (Model_set_changed new unset silent m k) as Hc.
  by rewrite Hempty, lookup_empty, Hk, Hv in Hc.
Qed.

Lemma Model_set_events (new : attrs) (unset silent : bool) (m : model)
    (e : event) :
  e ∈ (Model_set new unset silent m).1.2 →
  (∃ i k, e = EChangeAttr i k) ∨ (∃ i, e = EChange i).
Proof.
  unfold Model_set. destruct silent; [by intros ?%elem_of_nil|].
  destruct (foldl _ _ _).2 as [|k ks]; [by intros ?%elem_of_nil|].
  intros [Hin|Hin%list_elem_of_singleton]%elem_of_app; [|eauto].
  apply list_elem_of_fmap in Hin as (k' & -> & _). eauto.
Qed.

Lemma Model_set_fired_event (new : attrs) (unset silent : bool) (m : model) :
  (Model_set new unset silent m).2 = true →
  EChange (id (Model_set new unset silent m).1.1)
    ∈ (Model_set new unset silent m).1.2.
Proof.
  unfold Model_set. destruct silent; [done|].
  destruct (foldl _ _ _).2 as [|k ks] eqn:Hst; [done|].
  intros _. cbn [fst snd]. apply elem_of_app. right. by left.
Qed.

(** An attribute that gets a value which is not the one it had has its
    "change:attr" triggered. *)
Lemma Model_set_attr_event (new : attrs) (unset : bool) (m : model)
    (k : string) (v : value) :
  new !! k = Some v →
  _isEqual (get (attributes m) k) v = false →
  EChangeAttr (id (Model_set new unset false m).1.1) k
    ∈ (Model_set new unset false m).1.2.
Proof.
  intros Hk Hv.
  assert (k ∈ (foldl (set_attr unset) (set_start m) (map_to_list new)).2)
    as Hin.
  { apply set_attr_fold_changes; [apply NoDup_fst_map_to_list|].
    right. exists v. split; [|done]. by apply elem_of_map_to_list. }
  unfold Model_set. unfold set_start in Hin. cbv zeta.
  destruct (foldl (set_attr unset) _ (map_to_list new)) as [m' changes].
  cbn [fst snd] in *. destruct changes as [|k0 ks];
    [by apply elem_of_nil in Hin|].
  cbn [fst snd]. apply elem_of_app. left.
  apply list_elem_of_fmap. by exists k.
Qed.

(** ** The "change" listener of the collection *)


(** C2, as the code has it.  While a member's [_remoteChanging] flag is
    true, the "change" listener of the collection ([_updateModel]) skips
    the push: a change notification on that member, whatever attributes it
    sets or unsets, issues no write ([update], [set] or
    [setWithPriority]). *)
Theorem remote_changing_skips_collection_push (c : collection) (i : nat)
    (item : model) (new : attrs) (unset silent : bool) :
  models c !! i = Some item →
  _remoteChanging item = true →
  Collection__updateModel item = [] ∧
  writes (item_set i new unset silent c).2 = writes c.
Proof.
  intros Hi Hflag. split.
  { unfold Collection__updateModel. by rewrite Hflag. }
  unfold item_set, bind, gets, modify. cbn [fst snd]. rewrite Hi.
  destruct (Model_set new unset silent item).2 eqn:Hfired; cbn; [|done].
  unfold Collection__updateModel.
  destruct (Model_set_frame new unset silent item) as [_ ->].
  rewrite Hflag. apply app_nil_r.
Qed.


(** ** Records *)

Lemma syncs_app (es es' : list event) : syncs (es ++ es') = syncs es + syncs es'.
Proof. unfold syncs. by rewrite filter_app, length_app. Qed.

Lemma syncs_none (es : list event) : ESync ∉ es → syncs es = 0.
Proof.
  unfold syncs. induction es as [|e es IH]; [done|]. intros Hnot.
  rewrite filter_cons. destruct (decide (e = ESync)) as [->|].
  - exfalso. apply Hnot. left.
  - apply IH. intros ?. apply Hnot. by right.
Qed.

Lemma syncs_Model_set (new : attrs) (unset silent : bool) (m : model) :
  syncs (Model_set new unset silent m).1.2 = 0.
Proof.
  apply syncs_none. intros He.
  by apply Model_set_events in He as [(? & ? & ?)|(? & ?)].
Qed.

Lemma same_engine_trans (r1 r2 r3 : record) :
  same_engine r1 r2 → same_engine r2 r3 → same_engine r1 r3.
Proof.
  intros (? & ? & ? & ?) (? & ? & ? & ?). repeat split; congruence.
Qed.

(** [set] on a record with autoSync: the listener pushes the changed
    attributes with [update]. *)
Lemma record_set_sync (new : attrs) (unset silent : bool) (r : record) :
  autoSync r = true →
  record_set new unset silent r =
  Some (Record_ (Model_set new unset silent (this r)).1.1 true (defaults r)
          (once_sync r)
          (r_writes r ++
             if (Model_set new unset silent (this r)).2
             then [WUpdate Self
                     (Model__updateModel (Model_set new unset silent (this r)).1.1)]
             else [])
          (r_events r ++ (Model_set new unset silent (this r)).1.2)).
Proof.
  intros Hauto. unfold record_set. rewrite Hauto.
  unfold on_change, _listenLocalChange, SyncModel_cb.
  by destruct (Model_set new unset silent (this r)).2.
Qed.

Lemma record_set_sync_spec (new : attrs) (unset silent : bool) (r : record) :
  autoSync r = true →
  ∃ r', record_set new unset silent r = Some r' ∧ same_engine r r' ∧
        this r' = (Model_set new unset silent (this r)).1.1.
Proof.
  intros Hauto. eexists. split; [by apply record_set_sync|].
  split; [|done]. unfold same_engine.
  cbn [autoSync defaults once_sync r_events].
  by rewrite syncs_app, syncs_Model_set, Nat.add_0_r.
Qed.

(** A record with autoSync pushes every change it is notified of; it does
    not look at [_remoteChanging]. *)
Lemma SyncModel_pushes_every_change (new : attrs) (unset : bool) (r : record) :
  autoSync r = true →
  (Model_set new unset false (this r)).2 = true →
  ∃ r' d, record_set new unset false r = Some r' ∧
          r_writes r' = r_writes r ++ [WUpdate Self d].
Proof.
  intros Hauto Hfired. rewrite (record_set_sync _ _ _ _ Hauto), Hfired.
  by eexists _, _.
Qed.

(** [set] on a record without autoSync: the listener only sets the
    tombstones locally; nothing is written. *)
Lemma record_set_once (new : attrs) (unset silent : bool) (r : record) :
  autoSync r = false →
  ∃ r', record_set new unset silent r = Some r' ∧
        autoSync r' = false ∧ r_writes r' = r_writes r.
Proof.
  intros Hauto. unfold record_set. rewrite Hauto.
  destruct (Model_set new unset silent (this r)).2 eqn:Hfired; cbn.
  - unfold on_change, _listenLocalChange, Model__updateModel,
      changedAttributes.
    rewrite bool_decide_eq_false_2 by by apply Model_set_fired_changed.
    cbn. eexists. split; [done|]. split; [done|]. cbn. apply app_nil_r.
  - eexists. split; [done|]. split; [done|]. cbn. apply app_nil_r.
Qed.

(** Only an explicit sync pushes the attributes of such a record. *)
Lemma explicit_sync_writes (m : model) :
  Firebase_sync MCreate m = [WSet Self (DObj (toJSON m))] ∧
  Firebase_sync MUpdate m = [WUpdate Self (DObj (toJSON m))].
Proof. done. Qed.

(** C9.  A record without autoSync: whatever the application sets, unsets
    or clears, as long as it asks for no sync, the engine issues no write;
    the log of writes is the one before. *)
Theorem one_shot_mutations_write_nothing (r : record) (mus : list mutation) :
  autoSync r = false →
  ∃ r', mutations mus r = Some r' ∧ r_writes r' = r_writes r.
Proof.
  unfold mutations. revert r.
  induction mus as [|mu mus IH]; intros r Hauto; cbn [foldl].
  - by exists r.
  - assert (∃ r1, mutate mu r = Some r1 ∧ autoSync r1 = false ∧
                  r_writes r1 = r_writes r) as (r1 & Hr1 & Hauto1 & Hw1).
    { destruct mu; by apply record_set_once. }
    cbn [mbind option_bind]. rewrite Hr1.
    destruct (IH r1 Hauto1) as (r' & Hr' & Hw'). exists r'.
    split; [done|]. congruence.
Qed.

Lemma lookup_singleton_case (k0 k : string) (v : value) :
  ({[ k0 := v ]} : attrs) !! k = if decide (k = k0) then Some v else None.
Proof.
  destruct (decide (k = k0)) as [->|].
  - apply lookup_singleton_eq.
  - by apply lookup_singleton_ne.
Qed.

(** The unsets of [_processChanges]. *)
Lemma unset_all_sync (l : list string) (r : record) :
  autoSync r = true →
  ∃ r', foldl (λ acc key, acc ≫= record_unset key) (Some r) l = Some r' ∧
        same_engine r r' ∧
        ∀ k, attributes (this r') !! k =
             if decide (k ∈ l) then None else attributes (this r) !! k.
Proof.
  revert r. induction l as [|key l IH]; intros r Hauto; cbn [foldl].
  - exists r. split; [done|]. split; [done|]. intros k.
    by rewrite decide_False by apply not_elem_of_nil.
  - destruct (record_set_sync_spec {[ key := VPrim PUndefined ]} true false
                r Hauto) as (r1 & Hr1 & Hsame1 & Hthis1).
    cbn [mbind option_bind]. unfold record_unset at 2. rewrite Hr1.
    destruct (IH r1) as (r' & Hr' & Hsame' & Hattrs').
    { destruct Hsame1 as (-> & _). done. }
    exists r'. split; [done|].
    split; [by eapply same_engine_trans|].
    intros k. rewrite Hattrs', Hthis1, Model_set_attributes,
      lookup_singleton_case.
    destruct (decide (k = key)) as [->|Hne].
    + rewrite (decide_True (P := key ∈ key :: l)) by left.
      by destruct (decide (key ∈ l)).
    + destruct (decide (k ∈ l)) as [Hin|Hin].
      * by rewrite decide_True by by right.
      * rewrite decide_False; [done|]. rewrite elem_of_cons. tauto.
Qed.

Lemma setId_sync (snap : snapshot) (r : record) :
  autoSync r = true →
  ∃ r', _setId snap r = Some r' ∧ same_engine r r' ∧
        ∀ k, attributes (this r') !! k =
             if decide (k = "id")
             then (if isNew (this r) then Some (VPrim (PStr (name snap)))
                   else attributes (this r) !! k)
             else attributes (this r) !! k.
Proof.
  intros Hauto. unfold _setId. destruct (isNew (this r)).
  - destruct (record_set_sync_spec {[ "id" := VPrim (PStr (name snap)) ]}
                false true r Hauto) as (r' & Hr' & Hsame & Hthis).
    exists r'. split; [done|]. split; [done|]. intros k.
    rewrite Hthis, Model_set_attributes, lookup_singleton_case.
    by destruct (decide (k = "id")).
  - exists r. split; [done|]. split; [done|]. intros k.
    by destruct (decide (k = "id")).
Qed.

(** ** Applying a remote value to a record *)

Lemma setLocal_object_sync (A : attrs) (nm : string) (r : record) :
  autoSync r = true →
  ∃ r', _setLocal (Snapshot (DObj A) nm) r = Some r' ∧ same_engine r r' ∧
        attributes (this r') =
        if _has A "id" then A else <["id" := VPrim (PStr nm)]> A.
Proof.
  intros Hauto. unfold _setLocal, _processChanges. cbn [val].
  destruct (unset_all_sync
              (_difference (_keys (attributes (this r))) (_keys A)) r Hauto)
    as (r1 & -> & Hsame1 & Hattrs1).
  cbn [mbind option_bind].
  assert (autoSync r1 = true) as Hauto1 by (destruct Hsame1; congruence).
  destruct (setId_sync (Snapshot (DObj A) nm) r1 Hauto1)
    as (r2 & -> & Hsame2 & Hattrs2).
  cbn [mbind option_bind set_arguments name] in *.
  assert (autoSync r2 = true) as Hauto2 by (destruct Hsame2; congruence).
  destruct (record_set_sync_spec A false false r2 Hauto2)
    as (r3 & -> & Hsame3 & Hthis3).
  exists r3. split; [done|].
  split; [eauto using same_engine_trans|].
  assert (∀ k, A !! k = None → attributes (this r1) !! k = None) as Hgone.
  { intros k HA. rewrite Hattrs1.
    destruct (decide (k ∈ _)) as [|Hnot]; [done|].
    rewrite elem_of_difference_list, !elem_of_keys in Hnot.
    rewrite eq_None_not_Some. intros Hin. apply Hnot. split; [done|].
    by rewrite HA; intros ?%is_Some_None. }
  apply map_eq. intros k.
  rewrite Hthis3, Model_set_attributes.
  destruct (A !! k) as [v|] eqn:HA.
  - destruct (_has A "id") eqn:Hid; [done|].
    apply has_false in Hid. rewrite lookup_insert_ne; [done|]. congruence.
  - rewrite Hattrs2.
    destruct (decide (k = "id")) as [->|Hne].
    + unfold isNew, id, get. rewrite (Hgone _ HA). cbn.
      apply has_false in HA as ->. by rewrite lookup_insert_eq.
    + rewrite (Hgone _ HA).
      destruct (_has A "id"); [done|]. by rewrite lookup_insert_ne.
Qed.


Lemma record_set_frame (new : attrs) (unset silent : bool) (r : record) :
  autoSync r = true →
  ∃ r', record_set new unset silent r = Some r' ∧ autoSync r' = true ∧
        _remoteAttributes (this r') = _remoteAttributes (this r).
Proof.
  intros Hauto. rewrite (record_set_sync _ _ _ _ Hauto).
  eexists. split; [done|]. split; [done|]. cbn [this].
  by destruct (Model_set_frame new unset silent (this r)) as [-> _].
Qed.

Lemma unset_all_frame (l : list string) (r : record) :
  autoSync r = true →
  ∃ r', foldl (λ acc key, acc ≫= record_unset key) (Some r) l = Some r' ∧
        autoSync r' = true ∧
        _remoteAttributes (this r') = _remoteAttributes (this r).
Proof.
  revert r. induction l as [|key l IH]; intros r Hauto; cbn [foldl].
  - by exists r.
  - destruct (record_set_frame {[ key := VPrim PUndefined ]} true false r
                Hauto) as (r1 & Hr1 & Hauto1 & Hframe1).
    cbn [mbind option_bind]. unfold record_unset at 2. rewrite Hr1.
    destruct (IH r1 Hauto1) as (r' & Hr' & Hauto' & Hframe').
    exists r'. split; [done|]. split; [done|]. congruence.
Qed.

(** [_setLocal] does not record the snapshot on the record. *)
Lemma setLocal_object_frame (A : attrs) (nm : string) (r : record) :
  autoSync r = true →
  ∃ r', _setLocal (Snapshot (DObj A) nm) r = Some r' ∧
        _remoteAttributes (this r') = _remoteAttributes (this r).
Proof.
  intros Hauto. unfold _setLocal, _processChanges. cbn [val].
  destruct (unset_all_frame
              (_difference (_keys (attributes (this r))) (_keys A)) r Hauto)
    as (r1 & -> & Hauto1 & Hframe1).
  cbn [mbind option_bind].
  assert (∃ r2, _setId (Snapshot (DObj A) nm) r1 = Some r2 ∧
                autoSync r2 = true ∧
                _remoteAttributes (this r2) = _remoteAttributes (this r1))
    as (r2 & -> & Hauto2 & Hframe2).
  { unfold _setId. destruct (isNew (this r1)).
    - by apply record_set_frame.
    - by exists r1. }
  cbn [mbind option_bind set_arguments].
  destruct (record_set_frame A false false r2 Hauto2)
    as (r3 & -> & _ & Hframe3).
  exists r3. split; [done|]. congruence.
Qed.

(** C4, as the code has it.  A record with autoSync receives the
    attribute map [A] as a remote value ([_setLocal]).  Its attributes are
    then [A], with the snapshot name as [id] when [A] has no [id] key.  The
    patch between [A] and these attributes is empty when [A] has an [id]
    key, and is [{id: name}] otherwise.  Run on these attributes with [A]
    as the stored snapshot, [_updateModel] issues no write in the first
    case and one [update] of [{id: name}] in the second.  [_setLocal]
    itself does not store the snapshot on the record. *)
Theorem setLocal_then_diff (r : record) (A : attrs) (nm : string) :
  autoSync r = true →
  ∃ r', _setLocal (Snapshot (DObj A) nm) r = Some r' ∧
        toJSON (this r') =
          (if _has A "id" then A else <["id" := VPrim (PStr nm)]> A) ∧
        diff A (toJSON (this r')) =
          (if _has A "id" then ∅ else {[ "id" := VPrim (PStr nm) ]}) ∧
        Collection__updateModel
          (with_remoteChanging false
             (with_remoteAttributes (Some A) (this r'))) =
          (if _has A "id" then []
           else [WUpdate (Child (VPrim (PStr nm)))
                   (DObj {[ "id" := VPrim (PStr nm) ]})]) ∧
        _remoteAttributes (this r') = _remoteAttributes (this r).
Proof.
  intros Hauto.
  destruct (setLocal_object_sync A nm r Hauto) as (r' & Hr' & _ & Hattrs).
  exists r'. split; [done|]. unfold toJSON. split; [done|].
  assert (diff A (attributes (this r')) =
          (if _has A "id" then ∅ else {[ "id" := VPrim (PStr nm) ]}))
    as Hdiff.
  { rewrite Hattrs. apply map_eq. intros k. rewrite diff_lookup.
    destruct (_has A "id") eqn:Hid.
    - rewrite lookup_empty. destruct (A !! k) as [v|] eqn:HA.
      + by rewrite (get_Some _ _ _ HA), loose_neq_irrefl.
      + by apply has_false in HA as ->.
    - apply has_false in Hid. rewrite lookup_singleton_case.
      destruct (decide (k = "id")) as [->|Hne].
      + by rewrite lookup_insert_eq, (get_None _ _ Hid).
      + rewrite lookup_insert_ne by done. destruct (A !! k) as [v|] eqn:HA.
        * by rewrite (get_Some _ _ _ HA), loose_neq_irrefl.
        * by apply has_false in HA as ->. }
  split; [done|].
  split.
  2:{ destruct (setLocal_object_frame A nm r Hauto) as (r'' & Hr'' & Hframe).
      rewrite Hr' in Hr''. by injection Hr'' as <-. }
  unfold Collection__updateModel, toJSON, with_remoteChanging,
    with_remoteAttributes.
  cbn [_remoteChanging _remoteAttributes attributes default from_option].
  unfold Datatypes.id. rewrite Hdiff. destruct (_has A "id") eqn:Hid; [done|].
  rewrite bool_decide_eq_false_2.
  - unfold id. cbn [attributes]. rewrite Hattrs. unfold get.
    by rewrite lookup_insert_eq.
  - by rewrite map_size_singleton.
Qed.

(** ** "sync" and the declared defaults *)





(** ** Remote events on a collection *)

(** C8 at the collection: a "child_changed" event whose value is a scalar
    or [null] makes the handler throw a [TypeError] before it looks for the
    member; the collection is left as it was. *)
Theorem childChanged_scalar_throws (p : prim) (nm : string) (c : collection) :
  _childChanged (Snapshot (DPrim p) nm) c = (inl TypeError, c).
Proof. done. Qed.

Lemma find_model_None (wanted : value) (ms : list model) :
  (∀ child, child ∈ ms → loose_eq (id child) wanted = false) →
  find_model wanted ms = None.
Proof.
  intros Hnone. unfold find_model. apply list_find_None, Forall_forall.
  intros child Hin. rewrite (Hnone child Hin). by intros [].
Qed.

(** C7.  A "child_changed" event whose identifier is the identifier
    ([==]) of no member of the collection makes the handler throw; the
    collection is left as it was, no member is added. *)
Theorem childChanged_unknown_id_throws (snap : snapshot) (c : collection) :
  (∀ A child, val snap = DObj A → child ∈ models c →
     loose_eq (id child) (get (with_id A (name snap)) "id") = false) →
  ∃ e, _childChanged snap c = (inl e, c).
Proof.
  intros Hnone. destruct snap as [[A|p] nm].
  - eexists. unfold _childChanged, model_with_id, bind, gets, ret, throw.
    cbn [val name]. rewrite find_model_None; [done|].
    intros child Hin. by apply Hnone.
  - by exists TypeError.
Qed.

(** *** Handlers that do not look at [_suppressEvent] *)

Lemma flag_blind_ret {A} (a : A) : flag_blind (ret a).
Proof. done. Qed.

Lemma flag_blind_throw {A} (e : exn) : flag_blind (throw (A := A) e).
Proof. done. Qed.

Lemma flag_blind_gets_models : flag_blind (gets models).
Proof. done. Qed.

Lemma flag_blind_modify (f : collection -> collection) :
  (∀ b c, f (with_suppressEvent b c) = with_suppressEvent b (f c)) →
  flag_blind (modify f).
Proof. intros Hf b c. unfold modify. by rewrite Hf. Qed.

Lemma flag_blind_bind {A B} (x : M A) (f : A -> M B) :
  flag_blind x → (∀ a, flag_blind (f a)) → flag_blind (bind x f).
Proof.
  intros Hx Hf b c. unfold bind. rewrite Hx.
  destruct (x c) as [[e|a] c']; cbn [fst snd]; [done|]. apply Hf.
Qed.

Lemma flag_blind_each {A} (l : list A) (body : A -> M unit) :
  (∀ a, flag_blind (body a)) → flag_blind (each l body).
Proof.
  intros Hbody. induction l as [|a l IH]; cbn [each].
  - apply flag_blind_ret.
  - apply flag_blind_bind; [apply Hbody|]. by intros _.
Qed.

Lemma flag_blind_item_set (i : nat) (new : attrs) (unset silent : bool) :
  flag_blind (item_set i new unset silent).
Proof.
  unfold item_set. apply flag_blind_bind; [apply flag_blind_gets_models|].
  intros ms. destruct (ms !! i) as [item|]; [|apply flag_blind_ret].
  apply flag_blind_bind; [by apply flag_blind_modify|]. intros _.
  apply flag_blind_bind; [by apply flag_blind_modify|]. intros _.
  destruct (Model_set new unset silent item).2;
    [by apply flag_blind_modify | apply flag_blind_ret].
Qed.

Lemma flag_blind_preventSync (i : nat) (state : bool) :
  flag_blind (_preventSync i state).
Proof. by apply flag_blind_modify. Qed.

Lemma flag_blind_childChanged (snap : snapshot) :
  flag_blind (_childChanged snap).
Proof.
  unfold _childChanged. apply flag_blind_bind.
  { unfold model_with_id.
    destruct (val snap); [apply flag_blind_ret | apply flag_blind_throw]. }
  intros model. apply flag_blind_bind; [apply flag_blind_gets_models|].
  intros ms. destruct (find_model _ ms) as [[i item]|];
    [|apply flag_blind_throw].
  apply flag_blind_bind; [apply flag_blind_preventSync|]. intros _.
  apply flag_blind_bind; [by apply flag_blind_modify|]. intros _.
  apply flag_blind_bind.
  { apply flag_blind_each. intros key. apply flag_blind_item_set. }
  intros _. apply flag_blind_bind; [apply flag_blind_item_set|]. intros _.
  apply flag_blind_preventSync.
Qed.

Lemma flag_blind_keeps {A} (x : M A) (c : collection) :
  flag_blind x → _suppressEvent (x c).2 = _suppressEvent c.
Proof.
  intros Hx. specialize (Hx (_suppressEvent c) c).
  assert (with_suppressEvent (_suppressEvent c) c = c) as Hc
    by by destruct c.
  rewrite Hc in Hx. rewrite Hx at 1. done.
Qed.

(** *** What "child_changed" notifies *)

Lemma bind_inr {A B} (x : M A) (f : A -> M B) (c c' : collection) (a : A) :
  x c = (inr a, c') → bind x f c = f a c'.
Proof. unfold bind. by intros ->. Qed.

(** Run the first statement of a handler, given how it ends. *)
Ltac run_with H := erewrite bind_inr; [|H].
Ltac run := run_with ltac:(done).

Lemma item_set_spec (i : nat) (new : attrs) (unset silent : bool)
    (c : collection) (item : model) :
  models c !! i = Some item →
  item_set i new unset silent c =
  (inr tt,
   Collection (<[i := (Model_set new unset silent item).1.1]> (models c))
     (_suppressEvent c) (pushed c)
     (writes c ++
        if (Model_set new unset silent item).2
        then Collection__updateModel (Model_set new unset silent item).1.1
        else [])
     (events c ++ (Model_set new unset silent item).1.2)).
Proof.
  intros Hi. unfold item_set, bind, gets, modify, ret. cbn [fst snd].
  rewrite Hi. unfold log_writes, trigger, with_models.
  destruct (Model_set new unset silent item).2; cbn; [done|].
  by rewrite app_nil_r.
Qed.

(** The unsets of [_childChanged]: the attributes the snapshot lacks go,
    the others stay; notifications are only added. *)
Lemma each_unset_spec (i : nat) (l : list string) (c : collection)
    (item : model) :
  models c !! i = Some item →
  ∃ c' item' evs,
    each l (λ key, item_set i {[ key := VPrim PUndefined ]} true false) c
      = (inr tt, c') ∧
    models c' !! i = Some item' ∧
    events c' = events c ++ evs ∧
    (∀ k, attributes item' !! k =
          if decide (k ∈ l) then None else attributes item !! k) ∧
    _remoteAttributes item' = _remoteAttributes item ∧
    _remoteChanging item' = _remoteChanging item.
Proof.
  revert c item. induction l as [|key l IH]; intros c item Hi; cbn [each].
  - exists c, item, []. split; [done|]. split; [done|].
    split; [by rewrite app_nil_r|]. split; [|done]. intros k.
    by rewrite decide_False by apply not_elem_of_nil.
  - run_with ltac:(by apply item_set_spec).
    set (st := Model_set {[ key := VPrim PUndefined ]} true false item).
    edestruct (IH (Collection (<[i := st.1.1]> (models c)) (_suppressEvent c)
                     (pushed c)
                     (writes c ++
                        if st.2 then Collection__updateModel st.1.1 else [])
                     (events c ++ st.1.2)) st.1.1)
      as (c' & item' & evs & Hrun & Hi' & Hevs & Hattrs & Hremote & Hflag).
    { cbn [models]. apply list_lookup_insert_eq. by eapply lookup_lt_Some. }
    cbn [events] in Hevs.
    exists c', item', (st.1.2 ++ evs). split; [done|]. split; [done|].
    split; [by rewrite Hevs, <- app_assoc|].
    split; [|by destruct (Model_set_frame {[ key := VPrim PUndefined ]} true
                            false item) as [<- <-]].
    intros k. rewrite Hattrs. unfold st.
    rewrite Model_set_attributes, lookup_singleton_case.
    destruct (decide (k = key)) as [->|Hne].
    + rewrite (decide_True (P := key ∈ key :: l)) by left.
      by destruct (decide (key ∈ l)).
    + destruct (decide (k ∈ l)) as [Hin|Hin].
      * by rewrite decide_True by by right.
      * rewrite decide_False; [done|]. rewrite elem_of_cons. tauto.
Qed.

(** A "child_changed" event that brings a member an attribute value which
    is not the one it holds is applied to that member - it then holds the
    value of the event, completed with its id - and triggers, on that
    member, "change:attr" for the attribute, and "change". *)
Lemma childChanged_applies (A : attrs) (nm : string) (c : collection)
    (i : nat) (item : model) (key : string) (v : value) :
  find_model (get (with_id A nm) "id") (models c) = Some (i, item) →
  with_id A nm !! key = Some v →
  _isEqual (get (attributes item) key) v = false →
  ∃ c' evs item',
    _childChanged (Snapshot (DObj A) nm) c = (inr tt, c') ∧
    events c' = events c ++ evs ∧
    models c' !! i = Some item' ∧
    attributes item' = with_id A nm ∧
    EChangeAttr (id item') key ∈ evs ∧
    EChange (id item') ∈ evs.
Proof.
  intros Hfind Hkey Hneq.
  assert (models c !! i = Some item) as Hi.
  { unfold find_model in Hfind. by apply list_find_Some in Hfind as (? & _). }
  unfold _childChanged, model_with_id. cbn [val name].
  run. run. rewrite Hfind. run. run.
  set (marked := with_remoteAttributes (Some (with_id A nm))
                   (with_remoteChanging true item)).
  set (c2 := with_models _ _).
  assert (models c2 !! i = Some marked) as Hi2.
  { unfold c2. cbn [models with_models].
    by rewrite !list_lookup_alter_eq, Hi. }
  destruct (each_unset_spec i
              (_difference (_keys (attributes item)) (_keys (with_id A nm)))
              c2 marked Hi2)
    as (c3 & item3 & evs3 & Hrun3 & Hi3 & Hevs3 & Hattrs3 & _).
  run_with ltac:(exact Hrun3). run_with ltac:(by apply item_set_spec).
  set (st := Model_set (with_id A nm) false false item3).
  assert (get (attributes item3) key = get (attributes item) key) as Hheld.
  { unfold get. rewrite Hattrs3. rewrite decide_False; [done|].
    rewrite elem_of_difference_list, !elem_of_keys, Hkey. intros [_ Hnot].
    apply Hnot. eauto. }
  assert (attributes st.1.1 = with_id A nm) as Hattrs.
  { apply map_eq. intros k. unfold st. rewrite Model_set_attributes.
    destruct (with_id A nm !! k) eqn:Hk; [done|]. rewrite Hattrs3.
    destruct (decide (k ∈ _)) as [|Hnot]; [done|].
    rewrite elem_of_difference_list, !elem_of_keys in Hnot.
    rewrite eq_None_not_Some. intros Hin. apply Hnot. split; [done|].
    by rewrite Hk; intros ?%is_Some_None. }
  assert (st.2 = true) as Hfired.
  { apply Model_set_fired_iff. split; [done|]. exists key, v.
    split; [done|]. by rewrite Hheld. }
  eexists _, (evs3 ++ st.1.2), (with_remoteChanging false st.1.1).
  split; [done|]. split; [cbn; by rewrite Hevs3, <- app_assoc|].
  split.
  { cbn. rewrite list_lookup_alter_eq, list_lookup_insert_eq; [done|].
    by eapply lookup_lt_Some. }
  split; [done|]. split; apply elem_of_app; right.
  - apply (Model_set_attr_event _ _ _ _ v); [done|]. by rewrite Hheld.
  - by apply Model_set_fired_event.
Qed.

(** C10.  The "child_changed" handler neither reads nor writes
    [_suppressEvent]: it does the same with the flag set as with the flag
    clear and leaves the flag as it found it.  So the echo of a silent
    local write that comes back as "child_changed" is not silenced: with
    the flag set, a value that differs from the one the member holds is
    applied to the member and triggers, on that member, "change:attr" for
    the attribute and "change". *)
Theorem childChanged_ignores_suppressEvent (snap : snapshot) (c : collection)
    (b : bool) :
  _childChanged snap (with_suppressEvent b c)
    = ((_childChanged snap c).1, with_suppressEvent b (_childChanged snap c).2) ∧
  _suppressEvent (_childChanged snap c).2 = _suppressEvent c ∧
  (∀ A i item key v,
     val snap = DObj A →
     find_model (get (with_id A (name snap)) "id") (models c) = Some (i, item) →
     with_id A (name snap) !! key = Some v →
     _isEqual (get (attributes item) key) v = false →
     ∃ c' evs item',
       _childChanged snap (with_suppressEvent true c) = (inr tt, c') ∧
       _suppressEvent c' = true ∧
       events c' = events c ++ evs ∧
       models c' !! i = Some item' ∧
       attributes item' = with_id A (name snap) ∧
       EChangeAttr (id item') key ∈ evs ∧
       EChange (id item') ∈ evs).
Proof.
  split; [apply flag_blind_childChanged|].
  split; [apply flag_blind_keeps, flag_blind_childChanged|].
  intros A i item key v HA Hfind Hkey Hneq.
  destruct snap as [d nm]. cbn [val name] in *. subst d.
  destruct (childChanged_applies A nm (with_suppressEvent true c) i item key v
              Hfind Hkey Hneq)
    as (c' & evs & item' & Hrun & Hevs & Hi & Hattrs & Hattr & Hchange).
  exists c', evs, item'. split; [done|]. split; [|done].
  pose proof (flag_blind_keeps _ (with_suppressEvent true c)
                (flag_blind_childChanged (Snapshot (DObj A) nm))) as Hflag.
  by rewrite Hrun in Hflag.
Qed.

(** *** What "child_added" notifies *)

Lemma defaults_empty_r (obj : attrs) : _defaults obj ∅ = obj.
Proof. unfold _defaults. by rewrite map_to_list_empty. Qed.

Lemma defaults_fold_fresh (l : list (string * value)) (obj : attrs)
    (k : string) :
  NoDup l.*1 →
  (∀ k', k' ∈ l.*1 → obj !! k' = None) →
  foldl defaults_step obj l !! k =
  match (list_to_map l : attrs) !! k with
  | Some v => Some v
  | None => obj !! k
  end.
Proof.
  revert obj. induction l as [|[k0 v0] l IH]; intros obj Hnd Hfresh;
    cbn [foldl].
  - simpl. by rewrite lookup_empty.
  - apply NoDup_cons in Hnd as [Hk0 Hnd]. cbn [fst snd] in *.
    assert (defaults_step obj (k0, v0) = <[k0 := v0]> obj) as ->.
    { unfold defaults_step. cbn [fst snd].
      by rewrite (get_None obj k0) by (apply Hfresh; left). }
    rewrite IH; [|done|].
    + cbn [list_to_map foldr uncurry fst snd].
      destruct (decide (k = k0)) as [->|Hne].
      * by rewrite (not_elem_of_list_to_map_1 _ _ Hk0), !lookup_insert_eq.
      * by rewrite !(lookup_insert_ne _ k0 k) by done.
    + intros k' Hin. rewrite lookup_insert_ne.
      * apply Hfresh. by right.
      * intros ->. done.
Qed.

Lemma defaults_empty_l (src : attrs) : _defaults ∅ src = src.
Proof.
  apply map_eq. intros k. unfold _defaults.
  rewrite defaults_fold_fresh.
  - rewrite list_to_map_to_list, lookup_empty. by destruct (src !! k).
  - apply NoDup_fst_map_to_list.
  - intros k' _. apply lookup_empty.
Qed.

(** A model built from a hash has the attributes of the hash. *)
Lemma Backbone_Model_attributes (a : attrs) :
  Backbone_Model a ∅ = Model a ∅ ∅ None false.
Proof. unfold Backbone_Model. by rewrite defaults_empty_l, defaults_empty_r. Qed.

Lemma insert_sorted_perm (x : model) (l : list model) :
  insert_sorted x l ≡ₚ x :: l.
Proof.
  induction l as [|y l IH]; cbn [insert_sorted]; [done|].
  destruct (sorts_after (comparator y) (comparator x)); [done|].
  rewrite IH. apply Permutation_swap.
Qed.

(** Sorting by id keeps the members. *)
Lemma sortBy_perm (l : list model) : sortBy l ≡ₚ l.
Proof.
  unfold sortBy. rewrite <- (app_nil_l l) at 2.
  generalize (@nil model) as acc.
  induction l as [|x l IH]; intros acc; cbn [foldl].
  - by rewrite app_nil_r.
  - rewrite IH, insert_sorted_perm. simpl. apply Permutation_middle.
Qed.

Lemma with_id_not_nullish (o : attrs) (nm : string) :
  is_nullish (get (with_id o nm) "id") = false.
Proof.
  unfold with_id. destruct (truthy (get o "id")) eqn:Hid.
  - by destruct (get o "id") as [[]|].
  - unfold get. by rewrite lookup_insert_eq.
Qed.

(** The echo of [add]: whether or not [_suppressEvent] is set, a
    "child_added" event for a record under whose id [Collection_get] finds
    no member adds it and triggers "add"; the flag is cleared. *)
Lemma childAdded_notifies (c : collection) (o : attrs) (nm : string) :
  Collection_get (get (with_id o nm) "id") (models c) = None →
  ∃ c', _childAdded (Snapshot (DObj o) nm) c = (inr tt, c') ∧
        _suppressEvent c' = false ∧
        events c' = events c ++ [EAdd (get (with_id o nm) "id"); ESort] ∧
        writes c' = writes c ∧
        length (models c') = S (length (models c)).
Proof.
  intros Hnew. unfold _childAdded. cbn [val name].
  run. run.
  set (model := with_id o nm) in *.
  set (added := Collection (sortBy (models c ++ [Model model ∅ ∅ None false]))
                  false (pushed c) (writes c)
                  (events c ++ [EAdd (get model "id"); ESort])).
  assert ((if _suppressEvent c
           then bind (modify (with_suppressEvent false))
                  (λ _, modify (Function_apply Backbone_Collection_add
                                  (model, None) (Some silent_true)))
           else modify (Function_apply Backbone_Collection_add (model, None)
                          None)) c = (inr tt, added)) as Hadd.
  { unfold Function_apply, Backbone_Collection_add, bind, modify.
    cbn [fst snd default]. rewrite Backbone_Model_attributes.
    destruct c as [ms [] n ws es]; cbn in *; by rewrite Hnew. }
  run_with ltac:(exact Hadd). run.
  assert (is_Some (Collection_get (get model "id") (models added)))
    as [[i found] Hget].
  { unfold Collection_get. unfold model at 1. rewrite with_id_not_nullish.
    apply (list_find_elem_of _ _ (Model model ∅ ∅ None false)).
    - unfold added. cbn [models]. rewrite sortBy_perm.
      apply elem_of_app. right. left.
    - unfold registered_as, id. cbn [attributes]. unfold model at 1.
      rewrite with_id_not_nullish. cbn. by rewrite bool_decide_eq_true_2. }
  rewrite Hget. eexists. split; [done|]. cbn.
  split; [done|]. split; [done|]. split; [done|].
  by rewrite length_alter, sortBy_perm, length_app, Nat.add_1_r.
Qed.

(** *** "child_changed", then the "change" listener *)

Lemma diff_same (a : attrs) : diff a a = ∅.
Proof.
  apply map_eq. intros k. rewrite diff_lookup, lookup_empty.
  destruct (a !! k) as [v|] eqn:Hk.
  - by rewrite (get_Some _ _ _ Hk), loose_neq_irrefl.
  - by apply has_false in Hk as ->.
Qed.

(** X1.  Once "child_changed" has been applied to a member, the snapshot it
    stored (the value of the event, completed with its id) and the
    attributes are the same hash, and the "change" listener has nothing to
    push for that member. *)
Lemma childChanged_then_nothing_to_push (A : attrs) (nm : string)
    (c : collection) (i : nat) (item : model) :
  find_model (get (with_id A nm) "id") (models c) = Some (i, item) →
  ∃ c' item',
    _childChanged (Snapshot (DObj A) nm) c = (inr tt, c') ∧
    models c' !! i = Some item' ∧
    _remoteAttributes item' = Some (with_id A nm) ∧
    toJSON item' = with_id A nm ∧
    _remoteChanging item' = false ∧
    Collection__updateModel item' = [].
Proof.
  intros Hfind.
  assert (models c !! i = Some item) as Hi.
  { unfold find_model in Hfind. by apply list_find_Some in Hfind as (? & _). }
  unfold _childChanged, model_with_id. cbn [val name].
  run. run. rewrite Hfind. run. run.
  set (marked := with_remoteAttributes (Some (with_id A nm))
                   (with_remoteChanging true item)).
  set (c2 := with_models _ _).
  assert (models c2 !! i = Some marked) as Hi2.
  { unfold c2. cbn [models with_models].
    by rewrite !list_lookup_alter_eq, Hi. }
  destruct (each_unset_spec i
              (_difference (_keys (attributes item)) (_keys (with_id A nm)))
              c2 marked Hi2)
    as (c3 & item3 & evs3 & Hrun3 & Hi3 & Hevs3 & Hattrs3 & Hremote3 & _).
  run_with ltac:(exact Hrun3). run_with ltac:(by apply item_set_spec).
  set (st := Model_set (with_id A nm) false false item3).
  set (final := with_remoteChanging false st.1.1).
  assert (attributes final = with_id A nm) as Hattrs.
  { apply map_eq. intros k. unfold final, st.
    cbn [attributes with_remoteChanging]. rewrite Model_set_attributes.
    destruct (with_id A nm !! k) eqn:Hk; [done|]. rewrite Hattrs3.
    destruct (decide (k ∈ _)) as [|Hnot]; [done|].
    rewrite elem_of_difference_list, !elem_of_keys in Hnot.
    rewrite eq_None_not_Some. intros Hin. apply Hnot. split; [done|].
    by rewrite Hk; intros ?%is_Some_None. }
  assert (_remoteAttributes final = Some (with_id A nm)) as Hremote.
  { unfold final, st. cbn [_remoteAttributes with_remoteChanging].
    destruct (Model_set_frame (with_id A nm) false false item3) as [-> _].
    by rewrite Hremote3. }
  exists (_preventSync i false
            (Collection (<[i := st.1.1]> (models c3)) (_suppressEvent c3)
               (pushed c3)
               (writes c3 ++
                  if st.2 then Collection__updateModel st.1.1 else [])
               (events c3 ++ st.1.2))).2, final.
  split; [done|]. split.
  { cbn. rewrite list_lookup_alter_eq, list_lookup_insert_eq; [done|].
    by eapply lookup_lt_Some. }
  split; [done|]. split; [done|]. split; [done|].
  unfold Collection__updateModel.
  cbn [_remoteChanging final with_remoteChanging].
  fold final. unfold toJSON. rewrite Hremote, Hattrs. cbn [default].
  by rewrite diff_same.
Qed.
(** ** Local to remote: [_parseModels], [add], [remove], [create], [reset] *)

Lemma with_pushed_same (c : collection) : with_pushed (pushed c) c = c.
Proof. by destruct c. Qed.

Lemma with_id_entry_not_nullish (o : attrs) (s : string) :
  is_nullish (get (<["id" := VPrim (PStr s)]> o) "id") = false.
Proof. unfold get. by rewrite lookup_insert_eq. Qed.

Lemma truthy_not_nullish (v : value) : truthy v = true → is_nullish v = false.
Proof. by destruct v as [[]|]. Qed.

(** *** The loop of [_parseModels] *)

(** A hash or a model is kept, with a generated key when it has no id. *)
Lemma parseModels_step_hash (acc : M (list attrs)) (m : model_arg)
    (c : collection) (l : list attrs) (n : nat) :
  is_hash m →
  acc c = (inr l, with_pushed n c) →
  _parseModels_step acc m c =
  if truthy (get (arg_json m) "id")
  then (inr (l ++ [arg_json m]), with_pushed n c)
  else (inr (l ++ [<["id" := VPrim (PStr (push_name n))]> (arg_json m)]),
        with_pushed (S n) c).
Proof.
  intros Hm Hacc. unfold _parseModels_step, bind. rewrite Hacc.
  destruct m as [o|m|p]; [| |done]; cbn [arg_json];
    by destruct (truthy (get _ "id")).
Qed.

(** The loop throws on [undefined], [null] and scalars; for a scalar a
    key has been generated by then. *)
Lemma parseModels_step_scalar (acc : M (list attrs)) (p : prim)
    (c : collection) (l : list attrs) (n : nat) :
  acc c = (inr l, with_pushed n c) →
  _parseModels_step acc (Scalar p) c =
  (inl TypeError, with_pushed (if is_nullish (VPrim p) then n else S n) c).
Proof.
  intros Hacc. unfold _parseModels_step, bind. rewrite Hacc. by destruct p.
Qed.

Lemma parseModels_fold_thrown (ms : list model_arg) (acc : M (list attrs))
    (c c' : collection) (e : exn) :
  acc c = (inl e, c') → foldl _parseModels_step acc ms c = (inl e, c').
Proof.
  revert acc. induction ms as [|m ms IH]; intros acc Hacc; cbn [foldl];
    [done|].
  apply IH. unfold _parseModels_step, bind. by rewrite Hacc.
Qed.

Lemma parseModels_fold (ms : list model_arg) (acc : M (list attrs))
    (c : collection) (l : list attrs) (n : nat) :
  Forall is_hash ms →
  acc c = (inr l, with_pushed n c) →
  ∃ parsed n',
    foldl _parseModels_step acc ms c = (inr (l ++ parsed), with_pushed n' c) ∧
    (n ≤ n')%nat ∧
    Forall2 (parsed_from n n') ms parsed.
Proof.
  intros Hms. revert acc l n.
  induction Hms as [|m ms Hm Hms IH]; intros acc l n Hacc; cbn [foldl].
  - exists [], n. rewrite app_nil_r. by repeat split.
  - pose proof (parseModels_step_hash acc m c l n Hm Hacc) as Hstep.
    destruct (truthy (get (arg_json m) "id")) eqn:Hid.
    + destruct (IH _ _ _ Hstep) as (parsed & n' & Hrun & Hle & Hall).
      exists (arg_json m :: parsed), n'.
      rewrite Hrun, <- app_assoc. split; [done|]. split; [done|].
      constructor; [by left|done].
    + destruct (IH _ _ _ Hstep) as (parsed & n' & Hrun & Hle & Hall).
      exists (<["id" := VPrim (PStr (push_name n))]> (arg_json m) :: parsed),
        n'.
      rewrite Hrun, <- app_assoc. split; [done|]. split; [lia|].
      constructor.
      * right. split; [done|]. exists n. split; [lia|done].
      * eapply Forall2_impl; [exact Hall|]. intros m' model'.
        intros [?|(? & j & ? & ?)]; [by left|].
        right. split; [done|]. exists j. split; [lia|done].
Qed.

Lemma parseModels_run (ms : list model_arg) (c : collection) :
  Forall is_hash ms →
  ∃ parsed n,
    _parseModels ms c = (inr parsed, with_pushed n c) ∧
    (pushed c ≤ n)%nat ∧
    Forall2 (parsed_from (pushed c) n) ms parsed.
Proof.
  intros Hms.
  destruct (parseModels_fold ms (ret []) c [] (pushed c) Hms)
    as (parsed & n & Hrun & Hle & Hall).
  { unfold ret. by rewrite with_pushed_same. }
  by exists parsed, n.
Qed.

Lemma parseModels_throws (l : list model_arg) (p : prim)
    (ms' : list model_arg) (c : collection) :
  Forall is_hash l →
  ∃ parsed n,
    _parseModels l c = (inr parsed, with_pushed n c) ∧
    _parseModels (l ++ Scalar p :: ms') c =
    (inl TypeError, with_pushed (if is_nullish (VPrim p) then n else S n) c).
Proof.
  intros Hl. destruct (parseModels_run l c Hl) as (parsed & n & Hrun & _).
  exists parsed, n. split; [done|]. unfold _parseModels.
  rewrite foldl_app. cbn [foldl]. apply parseModels_fold_thrown.
  by apply (parseModels_step_scalar _ _ _ parsed).
Qed.

(** X2.  [_parseModels] touches nothing but the key generator.  Given
    hashes and models it returns one hash per element, in order: the
    element's own hash when that has a truthy [id], and otherwise the hash
    completed with a key generated for it; every hash it returns has an
    [id].  At the first element that is [undefined], [null] or a scalar it
    throws a [TypeError]; for a scalar the key has been generated by
    then. *)
Theorem parseModels_assigns_ids (ms : list model_arg) (c : collection) :
  (Forall is_hash ms →
   ∃ parsed n,
     _parseModels ms c = (inr parsed, with_pushed n c) ∧
     (pushed c ≤ n)%nat ∧
     length parsed = length ms ∧
     Forall (λ model, is_nullish (get model "id") = false) parsed ∧
     Forall2 (parsed_from (pushed c) n) ms parsed) ∧
  (∀ l p ms',
     ms = l ++ Scalar p :: ms' → Forall is_hash l →
     ∃ parsed n,
       _parseModels l c = (inr parsed, with_pushed n c) ∧
       _parseModels ms c =
       (inl TypeError,
        with_pushed (if is_nullish (VPrim p) then n else S n) c)).
Proof.
  split.
  - intros Hms.
    destruct (parseModels_run ms c Hms) as (parsed & n & Hrun & Hle & Hall).
    exists parsed, n. split; [exact Hrun|]. split; [done|].
    split; [symmetry; by eapply Forall2_length|]. split; [|done].
    apply Forall_forall. intros model Hin.
    apply list_elem_of_lookup in Hin as [i Hi].
    destruct (Forall2_lookup_r _ _ _ _ _ Hall Hi) as (m & _ & Hm).
    destruct Hm as [[Hid ->]|(_ & j & _ & ->)].
    + by apply truthy_not_nullish.
    + apply with_id_entry_not_nullish.
  - intros l p ms' -> Hl. by apply parseModels_throws.
Qed.

(** The loop of [add] and [remove]: one [set] per parsed model, at the
    child named by its [id]. *)
Lemma each_set_spec (payload : attrs -> data) (o : options)
    (parsed : list attrs) (c : collection) :
  each parsed (λ model,
    bind (if bool_decide (silent o = VPrim (PBool true))
          then modify (with_suppressEvent true) else ret tt)
      (λ _, modify (log_writes [WSet (Child (get model "id"))
                                  (payload model)]))) c
  = (inr tt,
     Collection (models c) (flag_after o parsed (_suppressEvent c)) (pushed c)
       (writes c ++
          ((λ model, WSet (Child (get model "id")) (payload model))
             <$> parsed))
       (events c)).
Proof.
  revert c. induction parsed as [|model parsed IH]; intros c; cbn [each].
  - unfold flag_after, ret. rewrite andb_false_r. cbn.
    rewrite app_nil_r. by destruct c.
  - erewrite bind_inr; [rewrite IH|].
    2:{ instantiate (1 := Collection (models c)
                            (if bool_decide (silent o = VPrim (PBool true))
                             then true else _suppressEvent c)
                            (pushed c)
                            (writes c ++ [WSet (Child (get model "id"))
                                            (payload model)])
                            (events c)).
        instantiate (1 := tt). unfold bind, modify, ret.
        by destruct (bool_decide (silent o = VPrim (PBool true))). }
    unfold flag_after. cbn [fmap list_fmap models _suppressEvent pushed
                              writes events].
    rewrite <- app_assoc. cbn [app].
    rewrite (bool_decide_eq_true_2 (model :: parsed ≠ [])) by done.
    destruct (bool_decide (silent o = VPrim (PBool true))); cbn; [|done].
    by destruct (bool_decide (parsed ≠ [])).
Qed.

(** [add] and [remove] have the same shape: parse, then one [set] per
    parsed model, then return what was parsed. *)
Lemma parse_then_set (payload : attrs -> data) (ms : list model_arg)
    (o : options) (c : collection) :
  Forall is_hash ms →
  ∃ parsed n,
    _parseModels ms c = (inr parsed, with_pushed n c) ∧
    Forall2 (parsed_from (pushed c) n) ms parsed ∧
    bind (_parseModels ms)
      (λ parsed,
         bind (each parsed (λ model,
                 bind (if bool_decide (silent o = VPrim (PBool true))
                       then modify (with_suppressEvent true) else ret tt)
                   (λ _, modify (log_writes [WSet (Child (get model "id"))
                                               (payload model)]))))
           (λ _, ret parsed)) c
    = (inr parsed,
       Collection (models c) (flag_after o parsed (_suppressEvent c)) n
         (writes c ++
            ((λ model, WSet (Child (get model "id")) (payload model))
               <$> parsed))
         (events c)).
Proof.
  intros Hms.
  destruct (parseModels_run ms c Hms) as (parsed & n & Hparse & _ & Hall).
  exists parsed, n. split; [done|]. split; [done|].
  run_with ltac:(exact Hparse).
  run_with ltac:(apply (each_set_spec payload)).
  done.
Qed.

Lemma bind_inl {A B} (x : M A) (f : A -> M B) (c c' : collection) (e : exn) :
  x c = (inl e, c') → bind x f c = (inl e, c').
Proof. unfold bind. by intros ->. Qed.

(** When the parse throws, nothing has been written. *)
Lemma parse_then_set_throws {A} (k : list attrs -> M A) (l : list model_arg)
    (p : prim) (ms' : list model_arg) (c : collection) :
  Forall is_hash l →
  ∃ parsed n,
    _parseModels l c = (inr parsed, with_pushed n c) ∧
    bind (_parseModels (l ++ Scalar p :: ms')) k c
    = (inl TypeError,
       with_pushed (if is_nullish (VPrim p) then n else S n) c).
Proof.
  intros Hl.
  destruct (parseModels_throws l p ms' c Hl) as (parsed & n & Hrun & Hthrow).
  exists parsed, n. split; [done|]. by apply bind_inl.
Qed.

(** X3.  [add] writes and does nothing else: given hashes and models, one
    [set] per record, in order, at the child named by the record's [id]
    and carrying the record.  The local members and the notifications are
    left as they were (the record only joins the collection when the store
    reports it); the flag is raised when the caller passed [silent: true]
    and there was a record.  With an element that is [undefined], [null]
    or a scalar, [add] throws before it writes anything. *)
Theorem add_sets_each_record (ms : list model_arg) (o : options)
    (c : collection) :
  (Forall is_hash ms →
   ∃ parsed n,
     _parseModels ms c = (inr parsed, with_pushed n c) ∧
     add ms o c =
       (inr parsed,
        Collection (models c) (flag_after o parsed (_suppressEvent c)) n
          (writes c ++
             ((λ model, WSet (Child (get model "id")) (DObj model))
                <$> parsed))
          (events c))) ∧
  (∀ l p ms',
     ms = l ++ Scalar p :: ms' → Forall is_hash l →
     ∃ parsed n,
       _parseModels l c = (inr parsed, with_pushed n c) ∧
       add ms o c =
       (inl TypeError,
        with_pushed (if is_nullish (VPrim p) then n else S n) c)).
Proof.
  split.
  - intros Hms.
    destruct (parse_then_set DObj ms o c Hms)
      as (parsed & n & Hparse & _ & Hrun).
    by exists parsed, n.
  - intros l p ms' -> Hl. by apply parse_then_set_throws.
Qed.

(** X4.  [remove] writes and does nothing else: given hashes and models,
    one [set(null)] per record, at the child named by the record's [id];
    the local members stay until the store reports the removal.  With an
    element that is [undefined], [null] or a scalar, [remove] throws
    before it writes anything. *)
Theorem remove_nulls_each_record (ms : list model_arg) (o : options)
    (c : collection) :
  (Forall is_hash ms →
   ∃ parsed n,
     _parseModels ms c = (inr parsed, with_pushed n c) ∧
     remove ms o c =
       (inr parsed,
        Collection (models c) (flag_after o parsed (_suppressEvent c)) n
          (writes c ++
             ((λ model, WSet (Child (get model "id")) (DPrim PNull))
                <$> parsed))
          (events c))) ∧
  (∀ l p ms',
     ms = l ++ Scalar p :: ms' → Forall is_hash l →
     ∃ parsed n,
       _parseModels l c = (inr parsed, with_pushed n c) ∧
       remove ms o c =
       (inl TypeError,
        with_pushed (if is_nullish (VPrim p) then n else S n) c)).
Proof.
  split.
  - intros Hms.
    destruct (parse_then_set (λ _, DPrim PNull) ms o c Hms)
      as (parsed & n & Hparse & _ & Hrun).
    by exists parsed, n.
  - intros l p ms' -> Hl. by apply parse_then_set_throws.
Qed.

(** X5.  [create] of a model is [add] of that model: one [set], carrying
    the attributes of the model, at the child named by its [id] - or,
    when the model has no truthy [id], carrying the attributes completed
    with the next generated key, at the child of that key.  The hash that
    was written is what [create] returns. *)
Theorem create_sets_one_record (m : model) (o : options) (c : collection) :
  let written :=
    if truthy (id m) then toJSON m
    else <["id" := VPrim (PStr (push_name (pushed c)))]> (toJSON m) in
  create m o c =
  (inr (DObj written),
   Collection (models c) (flag_after o [written] (_suppressEvent c))
     (if truthy (id m) then pushed c else S (pushed c))
     (writes c ++ [WSet (Child (get written "id")) (DObj written)])
     (events c)).
Proof.
  intros written. unfold create.
  assert (_parseModels [Instance m] c =
          (inr [written],
           with_pushed (if truthy (id m) then pushed c else S (pushed c)) c))
    as Hparse.
  { unfold _parseModels. cbn [foldl].
    rewrite (parseModels_step_hash _ _ c [] (pushed c)); [|done|].
    - cbn [arg_json]. unfold written, id, toJSON.
      by destruct (truthy (get (attributes m) "id")).
    - unfold ret. by rewrite with_pushed_same. }
  unfold add. run_with ltac:(run_with ltac:(exact Hparse);
                             run_with ltac:(apply (each_set_spec DObj));
                             done).
  done.
Qed.

(** X6.  [reset] first writes a [set(null)] for every member, at the
    child of the id [_parseModels] reads or generates for it.  Given
    hashes and models it then writes a [set] for each of them as
    [_parseModels] returns it, triggers one "reset" unless the caller
    passed a truthy [silent], and returns these hashes.  Given an element
    that is [undefined], [null] or a scalar - [reset()] without argument
    is such a call - it throws after the removals were written, and
    triggers nothing.  The local members are left to the events of the
    store. *)
Theorem reset_writes_then_notifies (ms : list model_arg) (o : options)
    (c : collection) :
  ∃ removed n1,
    _parseModels (Instance <$> models c) c = (inr removed, with_pushed n1 c) ∧
    let c1 :=
      Collection (models c)
        (flag_after silent_true removed (_suppressEvent c)) n1
        (writes c ++
           ((λ model, WSet (Child (get model "id")) (DPrim PNull))
              <$> removed))
        (events c) in
    (Forall is_hash ms →
     ∃ added n2,
       _parseModels ms c1 = (inr added, with_pushed n2 c1) ∧
       reset ms o c =
         (inr added,
          Collection (models c)
            (flag_after silent_true added (_suppressEvent c1)) n2
            (writes c1 ++
               ((λ model, WSet (Child (get model "id")) (DObj model))
                  <$> added))
            (events c ++ if truthy (silent o) then [] else [EReset]))) ∧
    (∀ l p ms',
       ms = l ++ Scalar p :: ms' → Forall is_hash l →
       ∃ parsed n,
         _parseModels l c1 = (inr parsed, with_pushed n c1) ∧
         reset ms o c =
         (inl TypeError,
          with_pushed (if is_nullish (VPrim p) then n else S n) c1)).
Proof.
  destruct (parse_then_set (λ _, DPrim PNull) (Instance <$> models c)
              silent_true c) as (removed & n1 & Hparse1 & _ & Hremove).
  { apply Forall_fmap, Forall_forall. by intros m _. }
  exists removed, n1. split; [done|]. intros c1. split.
  - intros Hms.
    destruct (parse_then_set DObj ms silent_true c1 Hms)
      as (added & n2 & Hparse2 & _ & Hadd).
    exists added, n2. split; [done|]. unfold reset.
    run. run_with ltac:(exact Hremove). run_with ltac:(exact Hadd).
    cbn [models _suppressEvent pushed writes events c1].
    destruct (truthy (silent o)).
    + unfold bind, ret. cbn. by rewrite app_nil_r.
    + done.
  - intros l p ms' -> Hl.
    destruct (parseModels_throws l p ms' c1 Hl)
      as (parsed & n & Hrun & Hthrow).
    exists parsed, n. split; [done|]. unfold reset.
    run. run_with ltac:(exact Hremove).
    apply bind_inl. unfold add. apply bind_inl. exact Hthrow.
Qed.

(** ** What a record pushes *)

Lemma tombstone_fold_lookup (l : list (string * value)) (acc : attrs)
    (k : string) :
  NoDup l.*1 →
  foldl tombstone acc l !! k =
  match (list_to_map l : attrs) !! k with
  | Some v =>
      if is_nullish v
      then (if decide (k = "id") then None else Some (VPrim PNull))
      else acc !! k
  | None => acc !! k
  end.
Proof.
  revert acc. induction l as [|[k0 v0] l IH]; intros acc Hnd; cbn [foldl].
  - simpl. by rewrite lookup_empty.
  - apply NoDup_cons in Hnd as [Hk0 Hnd]. rewrite (IH _ Hnd).
    cbn [list_to_map foldr uncurry]. cbn [fst snd] in *.
    unfold tombstone. cbn [fst snd].
    destruct (decide (k = k0)) as [->|Hne].
    + rewrite (not_elem_of_list_to_map_1 _ _ Hk0), lookup_insert_eq.
      destruct (is_nullish v0); [|done]. case_bool_decide as Hid.
      * subst k0. rewrite lookup_delete_eq. by rewrite decide_True.
      * rewrite lookup_insert_eq. by rewrite decide_False.
    + rewrite (lookup_insert_ne _ k0 k) by done.
      assert ((if is_nullish v0
               then if bool_decide (k0 = "id") then delete k0 acc
                    else <[k0 := VPrim PNull]> acc
               else acc) !! k = acc !! k) as ->; [|done].
      destruct (is_nullish v0); [|done]. case_bool_decide.
      * by rewrite lookup_delete_ne.
      * by rewrite lookup_insert_ne.
Qed.

Lemma updateModel_patch (m : model) :
  changed m ≠ ∅ →
  ∃ patch, Model__updateModel m = DObj patch ∧
           ∀ k, patch !! k = changed m !! k ≫= tombstone_entry k.
Proof.
  intros Hne. unfold Model__updateModel, changedAttributes.
  rewrite bool_decide_eq_false_2 by done.
  eexists. split; [done|]. intros k.
  rewrite tombstone_fold_lookup by apply NoDup_fst_map_to_list.
  rewrite list_to_map_to_list. unfold tombstone_entry.
  destruct (changed m !! k) as [v|] eqn:Hk; cbn; [|done].
  by destruct (is_nullish v).
Qed.




Lemma isEqual_undefined (v : value) :
  v ≠ VPrim PUndefined → _isEqual v (VPrim PUndefined) = false.
Proof.
  destruct v as [p|r]; [|done]. intros Hv. cbn.
  apply bool_decide_eq_false_2. congruence.
Qed.

(** X9.  [unset] on a record without autoSync: the listener of [OnceModel]
    puts the attribute back with the value [null], so that a later sync
    deletes it on the server.  Nothing is written meanwhile; the [update]
    sync that follows carries the attribute as [null]. *)
Theorem one_shot_unset_leaves_tombstone (key : string) (v : value)
    (r : record) :
  autoSync r = false →
  key ≠ "id" →
  attributes (this r) !! key = Some v →
  v ≠ VPrim PUndefined →
  ∃ r', record_unset key r = Some r' ∧
        attributes (this r') = <[key := VPrim PNull]> (attributes (this r)) ∧
        r_writes r' = r_writes r ∧
        Firebase_sync MUpdate (this r') =
          [WUpdate Self
             (DObj (<[key := VPrim PNull]> (attributes (this r))))].
Proof.
  intros Hauto Hkey Hv Hdef. unfold record_unset, record_set.
  set (st := Model_set {[ key := VPrim PUndefined ]} true false (this r)).
  assert (st.2 = true) as Hfired.
  { apply Model_set_fired_iff. split; [done|].
    exists key, (VPrim PUndefined). split; [apply lookup_singleton_eq|].
    rewrite (get_Some _ _ _ Hv). by apply isEqual_undefined. }
  rewrite Hfired, Hauto. unfold on_change, _listenLocalChange.
  destruct (updateModel_patch st.1.1) as (patch & -> & Hlookup);
    [by apply Model_set_fired_changed|].
  cbn [OnceModel_cb mbind option_bind fst snd].
  assert (attributes (Model_set_nested_silent patch st.1.1)
          = <[key := VPrim PNull]> (attributes (this r))) as Hattrs.
  { apply map_eq. intros k. unfold Model_set_nested_silent.
    rewrite set_attr_fold_attributes by apply NoDup_fst_map_to_list.
    cbn [fst snd]. rewrite list_to_map_to_list, Hlookup. unfold st.
    rewrite Model_set_changed, Model_set_attributes, lookup_singleton_case.
    destruct (decide (k = key)) as [->|Hne].
    - rewrite (get_Some _ _ _ Hv), (isEqual_undefined _ Hdef).
      cbn. unfold tombstone_entry. cbn.
      rewrite decide_False by done. by rewrite lookup_insert_eq.
    - cbn. by rewrite lookup_insert_ne. }
  eexists. split; [done|]. cbn [this r_writes].
  split; [done|]. split; [apply app_nil_r|].
  unfold Firebase_sync, toJSON. by rewrite Hattrs.
Qed.

(** X10.  [_setId] gives a record without id the name of the snapshot as
    its id, silently: nothing is written and nothing is notified.  A record
    that has an id is left as it is. *)
Theorem setId_is_silent (snap : snapshot) (r : record) :
  ∃ r', _setId snap r = Some r' ∧
        r_writes r' = r_writes r ∧ r_events r' = r_events r ∧
        id (this r') =
          (if isNew (this r) then VPrim (PStr (name snap)) else id (this r)) ∧
        ∀ k, k ≠ "id" →
             attributes (this r') !! k = attributes (this r) !! k.
Proof.
  unfold _setId. destruct (isNew (this r)) eqn:Hnew.
  - unfold record_set. cbv zeta.
    set (st := Model_set {[ "id" := VPrim (PStr (name snap)) ]} false true
                 (this r)).
    assert (st.2 = false ∧ st.1.2 = []) as [Hq He] by done.
    rewrite Hq. cbn [mbind option_bind fst snd]. eexists. split; [done|].
    cbn [r_writes r_events this]. rewrite He, !app_nil_r.
    split; [done|]. split; [done|]. split.
    + unfold id, get, st. by rewrite Model_set_attributes, lookup_singleton_eq.
    + intros k Hk. unfold st.
      by rewrite Model_set_attributes, lookup_singleton_ne.
  - exists r. by repeat split.
Qed.

(** ** What a record holds after a remote value *)

Lemma defaults_fold_lookup (l : list (string * value)) (obj : attrs)
    (k : string) :
  NoDup l.*1 →
  foldl defaults_step obj l !! k =
  if is_undefined (get obj k)
  then match (list_to_map l : attrs) !! k with
       | Some d => Some d
       | None => obj !! k
       end
  else obj !! k.
Proof.
  revert obj. induction l as [|[k0 v0] l IH]; intros obj Hnd; cbn [foldl].
  - simpl. rewrite lookup_empty. by destruct (is_undefined (get obj k)).
  - apply NoDup_cons in Hnd as [Hk0 Hnd]. rewrite (IH _ Hnd).
    cbn [list_to_map foldr uncurry]. cbn [fst snd] in *.
    unfold defaults_step. cbn [fst snd].
    destruct (decide (k = k0)) as [->|Hne].
    + rewrite (not_elem_of_list_to_map_1 _ _ Hk0), lookup_insert_eq.
      destruct (is_undefined (get obj k0)) eqn:Hu.
      * rewrite lookup_insert_eq.
        by destruct (is_undefined (get (<[k0:=v0]> obj) k0)).
      * by rewrite Hu.
    + rewrite (lookup_insert_ne _ k0 k) by done.
      assert (∀ o', o' = (if is_undefined (get obj k0)
                          then <[k0 := v0]> obj else obj) →
                    get o' k = get obj k ∧ o' !! k = obj !! k) as Hsame.
      { intros o' ->. unfold get.
        destruct (is_undefined _); [|done]. by rewrite lookup_insert_ne. }
      destruct (Hsame _ eq_refl) as [-> ->]. done.
Qed.

(** [_.defaults] fills in what is undefined and nothing else. *)
Lemma defaults_lookup (obj source : attrs) (k : string) :
  _defaults obj source !! k = defaulted obj source k.
Proof.
  unfold _defaults, defaulted.
  rewrite defaults_fold_lookup by apply NoDup_fst_map_to_list.
  by rewrite list_to_map_to_list.
Qed.

Lemma defaulted_None (obj source : attrs) (k : string) :
  defaulted obj source k = None → obj !! k = None.
Proof.
  unfold defaulted. destruct (is_undefined (get obj k)); [|done].
  by destruct (source !! k).
Qed.

(** X11.  The constructor of a record.  It throws
    [Error("url parameter required")] when [this.url] is neither a string
    nor a function, and when [this.url] is a function that throws - as the
    one inherited from [Backbone.Model] does when neither the class nor
    the options give a url - that exception comes out.  Otherwise the
    record is built: it has written nothing, has autoSync unless the
    options say otherwise, its defaults handler is waiting, and it holds
    the attributes it was given, completed with the declared defaults for
    those that are absent or undefined. *)
Theorem constructor_requires_url_and_fills_defaults (model defs : attrs)
    (options_autoSync : option bool) (url : url_arg) :
  match url with
  | UrlOther =>
      Firebase_Model model defs options_autoSync url
        = inl (Error "url parameter required")
  | UrlFunction (inl e) =>
      Firebase_Model model defs options_autoSync url = inl e
  | _ =>
      ∃ r, Firebase_Model model defs options_autoSync url = inr r ∧
           autoSync r = default true options_autoSync ∧
           once_sync r = true ∧
           r_writes r = [] ∧
           ∀ k, attributes (this r) !! k = defaulted model defs k
  end.
Proof.
  assert (∀ k, attributes (Backbone_Model model defs) !! k
               = defaulted model defs k) as Hattrs.
  { intros k. cbn [attributes Backbone_Model].
    by rewrite defaults_lookup, defaults_empty_l. }
  destruct url as [s|[e|s]|]; try done; eexists; by repeat split.
Qed.

(** X12.  A "value" event with an object, once the defaults handler has
    run: the record then holds exactly the snapshot - what it held and the
    snapshot lacks is gone - with the snapshot's name as [id] when the
    snapshot has none. *)
Theorem value_event_mirrors_snapshot (A : attrs) (nm : string) (r : record) :
  autoSync r = true →
  once_sync r = false →
  ∃ r', remote_value (Snapshot (DObj A) nm) r = Some r' ∧
        attributes (this r') = mirrored A nm ∧
        syncs (r_events r') = S (syncs (r_events r)).
Proof.
  intros Hauto Honce. unfold remote_value, SyncModel_value. rewrite Hauto.
  destruct (setLocal_object_sync A nm r Hauto)
    as (r1 & -> & (Ha & Hd & Ho & Hs) & Hattrs).
  cbn [mbind option_bind]. unfold trigger_sync. rewrite Ho, Honce.
  eexists. split; [done|]. cbn [this r_events]. split; [done|].
  rewrite syncs_app, Hs. change (syncs [ESync]) with 1. lia.
Qed.

(** X13.  The first "value" event with an object: after it the record holds
    the snapshot completed with the declared defaults - a default for every
    attribute the snapshot leaves absent or undefined, the snapshot's value
    everywhere else - and the defaults handler is gone. *)
Theorem first_value_event_applies_defaults (A : attrs) (nm : string)
    (r : record) :
  autoSync r = true →
  once_sync r = true →
  ∃ r', remote_value (Snapshot (DObj A) nm) r = Some r' ∧
        once_sync r' = false ∧
        ∀ k, attributes (this r') !! k
             = defaulted (mirrored A nm) (defaults r) k.
Proof.
  intros Hauto Honce. unfold remote_value, SyncModel_value. rewrite Hauto.
  destruct (setLocal_object_sync A nm r Hauto)
    as (r1 & -> & (Ha & Hd & Ho & Hs) & Hattrs).
  cbn [mbind option_bind]. unfold trigger_sync. rewrite Ho, Honce.
  set (r2 := Record_ (this r1) (autoSync r1) (defaults r1) false (r_writes r1)
               (r_events r1 ++ [ESync])).
  destruct (record_set_sync_spec
              (_defaults (toJSON (this r2)) (defaults r2)) false false r2)
    as (r3 & -> & (_ & _ & Ho3 & _) & Hthis3); [by rewrite <- Hauto|].
  exists r3. split; [done|]. split; [done|]. intros k.
  rewrite Hthis3, Model_set_attributes, defaults_lookup.
  cbn [this defaults r2]. unfold toJSON. rewrite Hattrs, Hd.
  fold (mirrored A nm).
  destruct (defaulted (mirrored A nm) (defaults r) k) eqn:Hk; [done|].
  by apply defaulted_None in Hk.
Qed.

Lemma singleton_patch (key : string) (m : model) :
  changed m = {[ key := VPrim PUndefined ]} →
  Model__updateModel m
  = DObj (if decide (key = "id") then ∅ else {[ key := VPrim PNull ]}).
Proof.
  intros Hchanged.
  destruct (updateModel_patch m) as (patch & -> & Hpatch).
  { rewrite Hchanged. apply insert_non_empty. }
  f_equal. apply map_eq. intros k.
  rewrite Hpatch, Hchanged, lookup_singleton_case.
  destruct (decide (k = key)) as [->|Hne]; cbn.
  - unfold tombstone_entry. cbn. destruct (decide (key = "id")).
    + by rewrite lookup_empty.
    + by rewrite lookup_singleton_eq.
  - destruct (decide (key = "id")).
    + by rewrite lookup_empty.
    + by rewrite lookup_singleton_ne.
Qed.

(** X14.  A "value" event whose value is a scalar skips the key diff: no
    attribute is removed.  But [set] then takes the scalar for the name of
    an attribute and gives that attribute the value [undefined]; if the
    attribute held another value, its deletion is pushed to the store
    with [update].  Every other attribute keeps its value (a record
    without id gets the name of the snapshot first).  Stated once the
    defaults handler has run. *)
Theorem scalar_value_event_names_an_attribute (p : prim) (nm : string)
    (r : record) :
  autoSync r = true →
  once_sync r = false →
  is_nullish (VPrim p) = false →
  let key := prim_ToString p in
  let held :=
    if isNew (this r) then <["id" := VPrim (PStr nm)]> (attributes (this r))
    else attributes (this r) in
  ∃ r', remote_value (Snapshot (DPrim p) nm) r = Some r' ∧
        attributes (this r') = <[key := VPrim PUndefined]> held ∧
        (∀ k, is_Some (attributes (this r) !! k) →
              is_Some (attributes (this r') !! k)) ∧
        r_writes r' =
          r_writes r ++
          (if _isEqual (get held key) (VPrim PUndefined) then []
           else [WUpdate Self
                   (DObj (if decide (key = "id") then ∅
                          else {[ key := VPrim PNull ]}))]).
Proof.
  intros Hauto Honce Hp key held.
  unfold remote_value, SyncModel_value, _setLocal, _processChanges.
  rewrite Hauto. cbn [val mbind option_bind].
  assert (∃ r2, _setId (Snapshot (DPrim p) nm) r = Some r2 ∧
                autoSync r2 = true ∧ once_sync r2 = false ∧
                attributes (this r2) = held ∧ r_writes r2 = r_writes r)
    as (r2 & -> & Hauto2 & Honce2 & Hheld & Hws2).
  { unfold _setId, held. destruct (isNew (this r)).
    - rewrite (record_set_sync _ _ _ _ Hauto). eexists. split; [done|].
      cbn [autoSync once_sync this r_writes]. split; [done|].
      split; [done|]. split; [|apply app_nil_r].
      apply map_eq. intros k. rewrite Model_set_attributes.
      rewrite lookup_singleton_case. cbn [name].
      destruct (decide (k = "id")) as [->|Hne].
      + by rewrite lookup_insert_eq.
      + by rewrite lookup_insert_ne.
    - by exists r. }
  cbn [mbind option_bind].
  assert (set_arguments (DPrim p) (VPrim PUndefined)
          = Some {[ key := VPrim PUndefined ]}) as -> by by destruct p.
  rewrite (record_set_sync _ _ _ _ Hauto2).
  set (st := Model_set {[ key := VPrim PUndefined ]} false false (this r2)).
  cbn [mbind option_bind]. unfold trigger_sync.
  cbn [once_sync]. rewrite Honce2.
  eexists. split; [done|]. cbn [this r_writes].
  assert (attributes st.1.1 = <[key := VPrim PUndefined]> held) as Hattrs.
  { apply map_eq. intros k. unfold st.
    rewrite Model_set_attributes, lookup_singleton_case, Hheld.
    destruct (decide (k = key)) as [->|Hne].
    - by rewrite lookup_insert_eq.
    - by rewrite lookup_insert_ne. }
  split; [done|]. split.
  { intros k Hk. rewrite Hattrs.
    destruct (decide (k = key)) as [->|Hne].
    - rewrite lookup_insert_eq. eauto.
    - rewrite lookup_insert_ne by done. unfold held.
      destruct (isNew (this r)); [|done].
      destruct (decide (k = "id")) as [->|Hid].
      + rewrite lookup_insert_eq. eauto.
      + by rewrite lookup_insert_ne. }
  rewrite Hws2. f_equal.
  destruct (_isEqual (get held key) (VPrim PUndefined)) eqn:Hsame.
  - assert (st.2 = false) as ->; [|done].
    apply not_true_is_false.
    intros (_ & k & v & Hk & Hv)%Model_set_fired_iff.
    rewrite lookup_singleton_case in Hk.
    destruct (decide (k = key)) as [->|]; [|done]. injection Hk as <-.
    by rewrite Hheld, Hsame in Hv.
  - assert (st.2 = true) as ->.
    { apply Model_set_fired_iff. split; [done|].
      exists key, (VPrim PUndefined).
      split; [apply lookup_singleton_eq|]. by rewrite Hheld. }
    f_equal. f_equal. apply singleton_patch.
    apply map_eq. intros k. unfold st.
    rewrite Model_set_changed, !lookup_singleton_case.
    destruct (decide (k = key)) as [->|]; [|done].
    by rewrite Hheld, Hsame.
Qed.

(** X15.  The value [null] - the remote node was deleted - does not clear
    the record: once the defaults handler has run, a "value" event with
    [null] on a record that has its id changes no attribute and writes
    nothing; it only triggers "sync". *)
Theorem null_value_event_changes_nothing (nm : string) (r : record) :
  autoSync r = true →
  once_sync r = false →
  isNew (this r) = false →
  remote_value (Snapshot (DPrim PNull) nm) r =
    Some (Record_ (this r) true (defaults r) false (r_writes r)
            (r_events r ++ [ESync])).
Proof.
  intros Hauto Honce Hnew.
  unfold remote_value, SyncModel_value, _setLocal, _processChanges, _setId.
  rewrite Hauto. cbn [val mbind option_bind set_arguments]. rewrite Hnew.
  cbn [mbind option_bind]. unfold trigger_sync. by rewrite Honce, Hauto.
Qed.

(** ** The patch, for what only the local attributes have *)

(** X16.  A key the snapshot lacks is pushed with its local value when that
    is a scalar, and is left out when its local value is [null] or
    [undefined].  The patch has no key from elsewhere than the snapshot and
    the local attributes. *)
Theorem diff_of_local_only_keys (remote local : attrs) :
  (∀ k p, remote !! k = None → local !! k = Some (VPrim p) →
          is_nullish (VPrim p) = false →
          diff remote local !! k = Some (VPrim p)) ∧
  (∀ k v, remote !! k = None → local !! k = Some v → is_nullish v = true →
          diff remote local !! k = None) ∧
  (∀ k, is_Some (diff remote local !! k) →
        is_Some (remote !! k) ∨ is_Some (local !! k)).
Proof.
  split; [|split].
  - intros k p Hr Hl Hp. rewrite diff_lookup, Hl, (get_None _ _ Hr).
    by destruct p.
  - intros k v Hr Hl Hv. rewrite diff_lookup, Hl, (get_None _ _ Hr).
    by destruct v as [[]|].
  - intros k. rewrite diff_lookup.
    destruct (local !! k) as [v|]; [eauto|].
    destruct (_has remote k) eqn:Hr; [|by intros ?%is_Some_None].
    apply has_true in Hr. eauto.
Qed.

(** *** The echo of a remote value *)

Lemma record_set_appends (new : attrs) (unset silent : bool) (r : record) :
  autoSync r = true →
  ∃ r' ws, record_set new unset silent r = Some r' ∧ same_engine r r' ∧
           this r' = (Model_set new unset silent (this r)).1.1 ∧
           r_writes r' = r_writes r ++ ws.
Proof.
  intros Hauto.
  destruct (record_set_sync_spec new unset silent r Hauto)
    as (r' & Hr' & Hsame & Hthis).
  exists r'. eexists. split; [done|]. split; [done|]. split; [done|].
  rewrite (record_set_sync _ _ _ _ Hauto) in Hr'. by injection Hr' as <-.
Qed.

Lemma unset_all_appends (l : list string) (r : record) :
  autoSync r = true →
  ∃ r' ws, foldl (λ acc key, acc ≫= record_unset key) (Some r) l = Some r' ∧
           same_engine r r' ∧ r_writes r' = r_writes r ++ ws ∧
           ∀ k, k ∉ l → attributes (this r') !! k = attributes (this r) !! k.
Proof.
  revert r. induction l as [|key l IH]; intros r Hauto; cbn [foldl].
  - exists r, []. by rewrite app_nil_r.
  - destruct (record_set_appends {[ key := VPrim PUndefined ]} true false r
                Hauto) as (r1 & ws1 & Hr1 & Hsame1 & Hthis1 & Hws1).
    cbn [mbind option_bind]. unfold record_unset at 2. rewrite Hr1.
    destruct (IH r1) as (r' & ws & Hr' & Hsame' & Hws' & Hattrs').
    { destruct Hsame1 as (-> & _). done. }
    exists r', (ws1 ++ ws). split; [done|].
    split; [by eapply same_engine_trans|].
    split; [by rewrite Hws', Hws1, app_assoc|].
    intros k [Hne Hk]%not_elem_of_cons.
    rewrite (Hattrs' k Hk), Hthis1, Model_set_attributes.
    by rewrite lookup_singleton_ne.
Qed.

Lemma setId_appends (snap : snapshot) (r : record) :
  autoSync r = true →
  ∃ r' ws, _setId snap r = Some r' ∧ same_engine r r' ∧
           r_writes r' = r_writes r ++ ws ∧
           ∀ k, k ≠ "id" →
                attributes (this r') !! k = attributes (this r) !! k.
Proof.
  intros Hauto. unfold _setId. destruct (isNew (this r)).
  - destruct (record_set_appends {[ "id" := VPrim (PStr (name snap)) ]}
                false true r Hauto) as (r' & ws & Hr' & Hsame & Hthis & Hws).
    exists r', ws. split; [done|]. split; [done|]. split; [done|].
    intros k Hk. rewrite Hthis, Model_set_attributes.
    by rewrite lookup_singleton_ne.
  - exists r, []. by rewrite app_nil_r.
Qed.

(** X17.  The engine of a record has no guard against echoes.  When a
    "value" event brings an attribute a value that is not the one the
    record holds, the "change" this triggers pushes the value back to the
    store: among the writes of the event is an [update] whose patch carries
    the attribute ([null] for a value that is [null] or [undefined]). *)
Theorem value_event_is_pushed_back (A : attrs) (nm : string) (r : record)
    (key : string) (v : value) :
  autoSync r = true →
  key ≠ "id" →
  A !! key = Some v →
  _isEqual (get (attributes (this r)) key) v = false →
  ∃ r' ws patch ws',
    remote_value (Snapshot (DObj A) nm) r = Some r' ∧
    r_writes r' = r_writes r ++ ws ++ [WUpdate Self (DObj patch)] ++ ws' ∧
    patch !! key = tombstone_entry key v.
Proof.
  intros Hauto Hkey HA Hneq.
  unfold remote_value, SyncModel_value, _setLocal, _processChanges.
  rewrite Hauto. cbn [val].
  destruct (unset_all_appends
              (_difference (_keys (attributes (this r))) (_keys A)) r Hauto)
    as (r1 & ws1 & -> & Hsame1 & Hws1 & Hattrs1).
  cbn [mbind option_bind].
  assert (autoSync r1 = true) as Hauto1 by (destruct Hsame1; congruence).
  destruct (setId_appends (Snapshot (DObj A) nm) r1 Hauto1)
    as (r2 & ws2 & -> & Hsame2 & Hws2 & Hattrs2).
  cbn [mbind option_bind set_arguments].
  assert (autoSync r2 = true) as Hauto2 by (destruct Hsame2; congruence).
  assert (attributes (this r2) !! key = attributes (this r) !! key) as Hsame.
  { rewrite (Hattrs2 _ Hkey). apply Hattrs1.
    rewrite elem_of_difference_list, !elem_of_keys, HA. intros [_ Hnot].
    apply Hnot. eauto. }
  rewrite (record_set_sync _ _ _ _ Hauto2).
  set (st := Model_set A false false (this r2)).
  assert (st.2 = true) as Hfired.
  { apply Model_set_fired_iff. split; [done|]. exists key, v.
    split; [done|]. unfold get in *. by rewrite Hsame. }
  rewrite Hfired.
  destruct (updateModel_patch st.1.1) as (patch & -> & Hpatch);
    [by apply Model_set_fired_changed|].
  assert (patch !! key = tombstone_entry key v) as Hentry.
  { rewrite Hpatch. unfold st. rewrite Model_set_changed, HA.
    unfold get in *. by rewrite Hsame, Hneq. }
  cbn [mbind option_bind]. unfold trigger_sync.
  cbn [once_sync this autoSync defaults r_writes r_events].
  destruct (once_sync r2).
  - edestruct (record_set_appends) as (r4 & ws4 & -> & _ & _ & Hws4);
      [|exists r4, (ws1 ++ ws2), patch, ws4; split; [done|]].
    { done. }
    split; [|done]. rewrite Hws4. cbn [r_writes].
    by rewrite Hws2, Hws1, <- !app_assoc.
  - eexists _, (ws1 ++ ws2), patch, []. split; [done|]. split; [|done].
    cbn [r_writes]. by rewrite Hws2, Hws1, <- !app_assoc.
Qed.

(** *** The members "child_added" and "child_removed" leave *)

Lemma registered_as_key (v : value) (m : model) :
  registered_as v m ↔ registered_key m = Some (ToString v).
Proof.
  unfold registered_as, registered_key.
  destruct (is_nullish (id m)); cbn; [split; [intros []|done]|].
  rewrite bool_decide_spec. split; [by intros ->|by intros [=]].
Qed.

Lemma Collection_get_Some (v : value) (ms : list model) (i : nat) (m : model) :
  Collection_get v ms = Some (i, m) →
  ms !! i = Some m ∧ registered_key m = Some (ToString v) ∧
  is_nullish v = false.
Proof.
  unfold Collection_get. destruct (is_nullish v); [done|].
  intros (Hi & Hreg & _)%list_find_Some. by apply registered_as_key in Hreg.
Qed.

(** [get] finds nothing exactly when no member is registered under the
    key. *)
Lemma Collection_get_None (v : value) (ms : list model) :
  is_nullish v = false →
  Collection_get v ms = None ↔ ToString v ∉ registered_keys ms.
Proof.
  intros Hv. unfold Collection_get, registered_keys.
  rewrite Hv, list_find_None, Forall_forall, list_elem_of_omap. split.
  - intros Hnone (m & Hin & Hkey). apply (Hnone m Hin).
    by apply registered_as_key.
  - intros Hnot m Hin Hreg. apply Hnot. exists m. split; [done|].
    by apply registered_as_key.
Qed.

Lemma registered_keys_alter (f : model -> model) (i : nat) (ms : list model) :
  (∀ m, id (f m) = id m) →
  registered_keys (alter f i ms) = registered_keys ms.
Proof.
  intros Hid. revert i. induction ms as [|m ms IH]; intros [|i]; try done.
  - unfold registered_keys. cbn. unfold registered_key. by rewrite Hid.
  - unfold registered_keys in *. cbn. by rewrite IH.
Qed.

Lemma registered_keys_delete (ms : list model) (i : nat) (m : model)
    (k : string) :
  ms !! i = Some m → registered_key m = Some k →
  registered_keys ms ≡ₚ k :: registered_keys (delete i ms).
Proof.
  intros Hi Hk. unfold registered_keys.
  rewrite (delete_Permutation ms i m Hi) at 1. cbn. by rewrite Hk.
Qed.

Lemma alter_insert (f : model -> model) (i : nat) (l : list model)
    (x : model) :
  l !! i = Some x → alter f i l = <[i := f x]> l.
Proof.
  revert i. induction l as [|y l IH]; intros [|i] Hi; simplify_eq/=; [done|].
  by rewrite (IH i Hi).
Qed.

(** Both branches of [_childAdded] make the same call: the flag is
    cleared, and [add] receives the model and no options. *)
Lemma childAdded_add_step (model : attrs) (c : collection) :
  (if _suppressEvent c
   then bind (modify (with_suppressEvent false))
          (λ _, modify (Function_apply Backbone_Collection_add (model, None)
                          (Some silent_true)))
   else modify (Function_apply Backbone_Collection_add (model, None) None)) c
  = (inr tt, Backbone_Collection_add model no_options
               (with_suppressEvent false c)).
Proof. by destruct c as [ms [] n ws es]. Qed.

Lemma childAdded_run (o : attrs) (nm : string) (c : collection) :
  _childAdded (Snapshot (DObj o) nm) c =
  match Collection_get (get (with_id o nm) "id")
          (models (Backbone_Collection_add (with_id o nm) no_options
                     (with_suppressEvent false c))) with
  | None =>
      (inl TypeError,
       Backbone_Collection_add (with_id o nm) no_options
         (with_suppressEvent false c))
  | Some (i, _) =>
      (inr tt,
       with_models
         (alter (with_remoteAttributes (Some (with_id o nm))) i
            (models (Backbone_Collection_add (with_id o nm) no_options
                       (with_suppressEvent false c))))
         (Backbone_Collection_add (with_id o nm) no_options
            (with_suppressEvent false c)))
  end.
Proof.
  unfold _childAdded. cbn [val name]. run. run.
  run_with ltac:(apply childAdded_add_step). run.
  by destruct (Collection_get _ _) as [[i found]|].
Qed.

(** A scalar is taken for the empty hash. *)
Lemma childAdded_scalar (p : prim) (nm : string) (c : collection) :
  is_nullish (VPrim p) = false →
  _childAdded (Snapshot (DPrim p) nm) c = _childAdded (Snapshot (DObj ∅) nm) c.
Proof. by destruct p. Qed.

Lemma childRemoved_run (A : attrs) (nm : string) (c : collection) :
  _childRemoved (Snapshot (DObj A) nm) c =
  (inr tt,
   Backbone_Collection_remove (with_id A nm) no_options
     (with_suppressEvent false c)).
Proof.
  unfold _childRemoved, model_with_id. cbn [val name]. run. run.
  by destruct c as [ms [] n ws es].
Qed.

(** What [add] makes of a hash whose id is not registered. *)
Lemma Backbone_add_new (model : attrs) (c : collection) :
  Collection_get (get model "id") (models c) = None →
  Backbone_Collection_add model no_options (with_suppressEvent false c) =
  Collection (sortBy (models c ++ [Model model ∅ ∅ None false])) false
    (pushed c) (writes c) (events c ++ [EAdd (get model "id"); ESort]).
Proof.
  intros Hnew. unfold Backbone_Collection_add.
  cbn [models with_suppressEvent]. by rewrite Hnew, Backbone_Model_attributes.
Qed.

(** The member [get] finds after a hash with an unregistered id was
    added is the one built from the hash. *)
Lemma Collection_get_added (ms : list model) (model : attrs) :
  is_nullish (get model "id") = false →
  Collection_get (get model "id") ms = None →
  ∃ i, Collection_get (get model "id")
         (sortBy (ms ++ [Model model ∅ ∅ None false]))
       = Some (i, Model model ∅ ∅ None false).
Proof.
  intros Hv Hnew. set (new := Model model ∅ ∅ None false).
  assert (registered_key new = Some (ToString (get model "id"))) as Hkey.
  { unfold registered_key, id, new. cbn [attributes]. by rewrite Hv. }
  destruct (Collection_get (get model "id") (sortBy (ms ++ [new])))
    as [[i found]|] eqn:Hget.
  - exists i. destruct (Collection_get_Some _ _ _ _ Hget) as (Hi & Hreg & _).
    assert (found ∈ ms ++ [new]) as [Hin|Hin%list_elem_of_singleton]%elem_of_app.
    { rewrite <- sortBy_perm. by eapply list_elem_of_lookup_2. }
    + exfalso. apply (Collection_get_None _ _ Hv) in Hnew. apply Hnew.
      apply list_elem_of_omap. by exists found.
    + by subst found.
  - exfalso. apply (Collection_get_None _ _ Hv) in Hget. apply Hget.
    apply list_elem_of_omap. exists new. split; [|done].
    rewrite sortBy_perm. apply elem_of_app. right. left.
Qed.


Lemma childAdded_unique (o : attrs) (nm : string) (c : collection) :
  unique_ids c → unique_ids (_childAdded (Snapshot (DObj o) nm) c).2.
Proof.
  unfold unique_ids. intros Hu. rewrite childAdded_run.
  pose proof (with_id_not_nullish o nm) as Hv.
  destruct (Collection_get (get (with_id o nm) "id") (models c))
    as [[i m]|] eqn:Hget.
  - unfold Backbone_Collection_add. cbn [models with_suppressEvent].
    rewrite Hget. cbn [models with_suppressEvent]. rewrite Hget.
    cbn [snd models with_models]. by rewrite registered_keys_alter.
  - rewrite (Backbone_add_new _ _ Hget). cbn [models].
    destruct (Collection_get_added _ _ Hv Hget) as [i Hi]. rewrite Hi.
    cbn [snd models with_models].
    rewrite registered_keys_alter by done. unfold registered_keys.
    rewrite sortBy_perm, omap_app. cbn. unfold registered_key at 2, id.
    cbn [attributes]. rewrite Hv. apply NoDup_app. split; [done|].
    split; [|apply NoDup_singleton].
    intros k Hk ->%list_elem_of_singleton.
    by apply (Collection_get_None _ _ Hv) in Hget.
Qed.

(** X20.  The members of a collection are registered under distinct keys,
    and "child_added" and "child_removed" events keep it so, whatever they
    carry. *)
Theorem added_and_removed_children_keep_ids_unique (snap : snapshot)
    (c : collection) :
  unique_ids c →
  unique_ids (_childAdded snap c).2 ∧ unique_ids (_childRemoved snap c).2.
Proof.
  intros Hu. destruct snap as [[A|p] nm]. 2: split.
  - split; [by apply childAdded_unique|]. rewrite childRemoved_run.
    unfold Backbone_Collection_remove. cbn [models with_suppressEvent].
    destruct (Collection_get _ _) as [[i m]|] eqn:Hget; [|done].
    destruct (Collection_get_Some _ _ _ _ Hget) as (Hi & Hkey & _).
    unfold unique_ids in *. cbn.
    rewrite (registered_keys_delete _ _ _ _ Hi Hkey) in Hu.
    by apply NoDup_cons in Hu as [_ Hu].
  - destruct (is_nullish (VPrim p)) eqn:Hp.
    + by destruct p.
    + rewrite (childAdded_scalar _ _ _ Hp). by apply childAdded_unique.
  - done.
Qed.

(** X21.  A "child_removed" event for an id under which a member is
    registered takes that member out and triggers "remove" for it - also
    when an echo was awaited, since the [{silent: true}] handed to [apply]
    is not in the argument array.  Nothing is written, the flag is clear,
    and no member is registered under the id afterwards.  Stated for a
    collection whose members are registered under distinct keys, none of
    them the key of the hash itself, which [get] tries first, and for an
    id that has not the form of a client id. *)
Theorem childRemoved_takes_the_member_out (A : attrs) (nm : string)
    (c : collection) (i : nat) (m : model) :
  unique_ids c →
  "[object Object]" ∉ registered_keys (models c) →
  cid_shaped (ToString (get (with_id A nm) "id")) = false →
  Collection_get (get (with_id A nm) "id") (models c) = Some (i, m) →
  _childRemoved (Snapshot (DObj A) nm) c
    = (inr tt,
       Collection (delete i (models c)) false (pushed c) (writes c)
         (events c ++ [ERemove (id m)])) ∧
  models c !! i = Some m ∧
  ToString (get (with_id A nm) "id") ∉ registered_keys (delete i (models c)).
Proof.
  intros Hu _ _ Hget. rewrite childRemoved_run.
  unfold Backbone_Collection_remove. cbn [models with_suppressEvent].
  rewrite Hget. split; [done|].
  destruct (Collection_get_Some _ _ _ _ Hget) as (Hi & Hkey & _).
  split; [done|]. unfold unique_ids in Hu.
  rewrite (registered_keys_delete _ _ _ _ Hi Hkey) in Hu.
  by apply NoDup_cons in Hu as [Hnot _].
Qed.

(** *** What "child_changed" leaves alone *)

Lemma item_set_frame (i : nat) (new : attrs) (unset silent : bool)
    (c : collection) (item : model) :
  models c !! i = Some item → _remoteChanging item = true →
  ∃ item' evs,
    item_set i new unset silent c
      = (inr tt,
         Collection (<[i := item']> (models c)) (_suppressEvent c) (pushed c)
           (writes c) (events c ++ evs)) ∧
    _remoteChanging item' = true.
Proof.
  intros Hi Hflag. rewrite (item_set_spec _ _ _ _ _ _ Hi).
  set (st := Model_set new unset silent item).
  destruct (Model_set_frame new unset silent item) as [_ Hrc].
  fold st in Hrc. rewrite Hflag in Hrc.
  exists st.1.1, st.1.2. split; [|done].
  unfold Collection__updateModel. rewrite Hrc.
  by destruct st.2; rewrite app_nil_r.
Qed.

Lemma each_unset_frame (i : nat) (l : list string) (c : collection)
    (item : model) :
  models c !! i = Some item → _remoteChanging item = true →
  ∃ item' evs,
    each l (λ key, item_set i {[ key := VPrim PUndefined ]} true false) c
      = (inr tt,
         Collection (<[i := item']> (models c)) (_suppressEvent c) (pushed c)
           (writes c) (events c ++ evs)) ∧
    _remoteChanging item' = true.
Proof.
  revert c item. induction l as [|key l IH]; intros c item Hi Hflag;
    cbn [each].
  - exists item, []. rewrite list_insert_id, app_nil_r by done.
    by destruct c.
  - destruct (item_set_frame i {[ key := VPrim PUndefined ]} true false c item
                Hi Hflag) as (item1 & evs1 & Hrun1 & Hflag1).
    run_with ltac:(exact Hrun1).
    edestruct (IH (Collection (<[i := item1]> (models c)) (_suppressEvent c)
                     (pushed c) (writes c) (events c ++ evs1)) item1)
      as (item' & evs & Hrun & Hflag'); [|done|].
    { cbn [models]. apply list_lookup_insert_eq. by eapply lookup_lt_Some. }
    exists item', (evs1 ++ evs). rewrite Hrun. cbn.
    by rewrite list_insert_insert_eq, app_assoc.
Qed.

Lemma childChanged_run (A : attrs) (nm : string) (c : collection) (i : nat)
    (item : model) :
  find_model (get (with_id A nm) "id") (models c) = Some (i, item) →
  ∃ final evs,
    _childChanged (Snapshot (DObj A) nm) c
      = (inr tt,
         Collection (<[i := final]> (models c)) (_suppressEvent c) (pushed c)
           (writes c) (events c ++ evs)).
Proof.
  intros Hfind.
  assert (models c !! i = Some item) as Hi.
  { unfold find_model in Hfind. by apply list_find_Some in Hfind as (? & _). }
  assert (i < length (models c))%nat as Hlt by by eapply lookup_lt_Some.
  unfold _childChanged, model_with_id. cbn [val name].
  run. run. rewrite Hfind. run. run.
  set (marked := with_remoteAttributes (Some (with_id A nm))
                   (with_remoteChanging true item)).
  set (c2 := with_models _ _).
  assert (c2 = Collection (<[i := marked]> (models c)) (_suppressEvent c)
                 (pushed c) (writes c) (events c)) as ->.
  { unfold c2, with_models. cbn.
    rewrite (alter_insert _ _ _ _ Hi), (alter_insert _ _ _ (with_remoteChanging true item)).
    - by rewrite list_insert_insert_eq.
    - by apply list_lookup_insert_eq. }
  edestruct (each_unset_frame i
               (_difference (_keys (attributes item)) (_keys (with_id A nm)))
               (Collection (<[i := marked]> (models c)) (_suppressEvent c)
                  (pushed c) (writes c) (events c)) marked)
    as (item3 & evs3 & Hrun3 & Hflag3); [|done|].
  { cbn [models]. by apply list_lookup_insert_eq. }
  run_with ltac:(exact Hrun3). cbn [models _suppressEvent pushed writes events].
  rewrite list_insert_insert_eq.
  edestruct (item_set_frame i (with_id A nm) false false
               (Collection (<[i := item3]> (models c)) (_suppressEvent c)
                  (pushed c) (writes c) (events c ++ evs3)) item3)
    as (item4 & evs4 & Hrun4 & Hflag4); [|done|].
  { cbn [models]. by apply list_lookup_insert_eq. }
  run_with ltac:(exact Hrun4). cbn [models _suppressEvent pushed writes events].
  rewrite list_insert_insert_eq.
  exists (with_remoteChanging false item4), (evs3 ++ evs4).
  unfold _preventSync, modify, with_models. cbn.
  rewrite (alter_insert _ _ _ item4) by by apply list_lookup_insert_eq.
  by rewrite list_insert_insert_eq, app_assoc.
Qed.

(** X22.  A "child_changed" event writes nothing to the store, generates no
    key, and leaves the number of members and every member but the one it
    finds as they are - whether it ends normally or throws. *)
Theorem childChanged_touches_one_member (snap : snapshot) (c : collection) :
  writes (_childChanged snap c).2 = writes c ∧
  pushed (_childChanged snap c).2 = pushed c ∧
  length (models (_childChanged snap c).2) = length (models c) ∧
  (∀ A i item,
     val snap = DObj A →
     find_model (get (with_id A (name snap)) "id") (models c)
       = Some (i, item) →
     ∀ j, j ≠ i → models (_childChanged snap c).2 !! j = models c !! j).
Proof.
  destruct snap as [[A|p] nm]; cbn [val name].
  - destruct (find_model (get (with_id A nm) "id") (models c))
      as [[i item]|] eqn:Hfind.
    + destruct (childChanged_run A nm c i item Hfind) as (final & evs & ->).
      cbn. split; [done|]. split; [done|].
      split; [by rewrite length_insert|].
      intros A' i' item' [= <-] Hfind' j Hne.
      rewrite Hfind in Hfind'. injection Hfind' as <- <-.
      by rewrite list_lookup_insert_ne.
    + unfold _childChanged, model_with_id. cbn [val name]. run. run.
      rewrite Hfind. cbn. split; [done|]. split; [done|]. split; [done|].
      by intros A' i' item' [= <-].
  - unfold _childChanged, model_with_id. cbn.
    split; [done|]. split; [done|]. split; [done|]. by intros.
Qed.

(** C1 at the input of the specification: on a fresh collection,
    [add([{id: "x", name: "a"}], {silent: true})] issues one [set] at the
    child ["x"] and raises the flag; the "child_added" echo clears the flag
    and leaves one member - and triggers "add" (then "sort"), because the
    [{silent: true}] handed to [apply] after the argument array does not
    reach [Backbone.Collection.prototype.add]. *)
Theorem silent_add_echo_notifies :
  add [Raw ex_x] silent_true Firebase_Collection
    = (inr [ex_x],
       Collection [] true 0 [WSet (Child (str "x")) (DObj ex_x)] []) ∧
  _childAdded (Snapshot (DObj ex_x) "x")
      (Collection [] true 0 [WSet (Child (str "x")) (DObj ex_x)] [])
    = (inr tt,
       Collection [ex_member false] false 0
         [WSet (Child (str "x")) (DObj ex_x)] [EAdd (str "x"); ESort]).
Proof. split; vm_compute; reflexivity. Qed.

End Properties.

(** * The properties at work

    Closed instances, run in [example_env]. *)

(** ** The patch *)

(** An instance of C3: on the snapshot [{a: 1, b: 2, c: 3}] and the local
    attributes [{b: 2, c: 4}], [a] is deleted, [c] is pushed, [b] is left
    out. *)
Lemma diff_tombstones_changes_and_omits_witness :
  diff (H := example_env) ex_remote ex_local !! "a" = Some (VPrim PNull) ∧
  diff (H := example_env) ex_remote ex_local !! "c" = Some (num 4) ∧
  diff (H := example_env) ex_remote ex_local !! "b" = None.
Proof.
  destruct (diff_tombstones_changes_and_omits (H := example_env)
              ex_remote ex_local) as (Hgone & Hchanged & Hsame & _).
  split; [|split].
  - apply Hgone; [by eexists|reflexivity].
  - apply (Hchanged "c" (num 4) (num 3)); reflexivity.
  - apply (Hsame "b" (num 2) (num 2)); reflexivity.
Defined.

(** C3 as it was stated fails: the comparison is [!=], not a comparison
    of values.  The number [1] and the string ["1"] are not the same
    value, and the key is left out of the patch; the objects [1] and [2]
    of [twin_env] have the same contents, and the key is pushed. *)
Lemma diff_compares_with_loose_neq :
  _isEqual (H := example_env) (str "1") (num 1) = false ∧
  diff (H := example_env) {[ "a" := num 1 ]} {[ "a" := str "1" ]} !! "a"
    = None ∧
  _isEqual (H := twin_env) (VRef 1%positive) (VRef 2%positive) = true ∧
  diff (H := twin_env) {[ "a" := VRef 1%positive ]}
    {[ "a" := VRef 2%positive ]} !! "a"
    = Some (VRef 2%positive).
Proof. repeat split; vm_compute; reflexivity. Qed.



(** ** The echo guard of a member *)

(** An instance of C2: on the member [{id: "x", name: "a"}] with
    [_remoteChanging] set, setting [name] to ["b"] writes nothing. *)
Lemma remote_changing_skips_collection_push_witness :
  Collection__updateModel (H := example_env) (ex_member true) = [] ∧
  writes (item_set (H := example_env) 0 {[ "name" := str "b" ]} false false
            (ex_collection true false)).2 = [].
Proof.
  apply (remote_changing_skips_collection_push (H := example_env)
           (ex_collection true false) 0 (ex_member true)); reflexivity.
Defined.

(** C2 as it was stated fails for a record: with [_remoteChanging] set on a
    record with autoSync, a local change is pushed with [update]. *)
Lemma record_push_ignores_remoteChanging :
  _remoteChanging (this (ex_record true true)) = true ∧
  r_writes <$> record_set (H := example_env) {[ "a" := num 1 ]} false false
                 (ex_record true true)
    = Some [WUpdate Self (DObj {[ "a" := num 1 ]})].
Proof. split; vm_compute; reflexivity. Qed.

(** ** Applying a remote value *)

(** The records of the examples are what the constructor builds. *)
Lemma ex_record_constructed (auto : bool) :
  Firebase_Model ∅ {[ "color" := str "red" ]} (Some auto) (UrlString "/abc")
  = inr (ex_record auto false).
Proof. by destruct auto. Qed.

(** An instance of C4: a snapshot that carries its id. *)
Lemma setLocal_then_diff_witness :
  ∃ r', _setLocal (H := example_env) (Snapshot (DObj ex_x) "x")
          (ex_record true false) = Some r' ∧
        toJSON (this r') = ex_x ∧
        diff (H := example_env) ex_x (toJSON (this r')) = ∅ ∧
        Collection__updateModel (H := example_env)
          (with_remoteChanging false
             (with_remoteAttributes (Some ex_x) (this r'))) = [] ∧
        _remoteAttributes (this r') = None.
Proof.
  apply (setLocal_then_diff (H := example_env) (ex_record true false) ex_x "x").
  reflexivity.
Defined.

(** C4 as it was stated fails: the snapshot [{name: "a"}] named ["abc"]
    gives the record the id ["abc"], and the patch between the snapshot and
    the attributes is [{id: "abc"}]. *)
Lemma setLocal_then_diff_not_empty :
  ∃ r', _setLocal (H := example_env) (Snapshot (DObj {[ "name" := str "a" ]}) "abc")
          (ex_record true false) = Some r' ∧
        toJSON (this r') = {[ "id" := str "abc"; "name" := str "a" ]} ∧
        diff (H := example_env) {[ "name" := str "a" ]} (toJSON (this r'))
          = {[ "id" := str "abc" ]} ∧
        diff (H := example_env) {[ "name" := str "a" ]} (toJSON (this r')) ≠ ∅.
Proof.
  eexists. split; [vm_compute; reflexivity|].
  split; [vm_compute; reflexivity|].
  split; [vm_compute; reflexivity|].
  intros Hempty. apply (f_equal (λ o : attrs, o !! "id")) in Hempty.
  vm_compute in Hempty. discriminate Hempty.
Qed.



(** An instance of C9: a record without autoSync that is set, unset and
    cleared. *)
Lemma one_shot_mutations_write_nothing_witness :
  ∃ r', mutations (H := example_env)
          [MSet {[ "a" := num 1; "b" := num 2 ]} false; MUnset "a" false;
           MSet {[ "b" := num 3 ]} true; MClear false]
          (ex_record false false) = Some r' ∧
        r_writes r' = [].
Proof.
  apply (one_shot_mutations_write_nothing (H := example_env)
           (ex_record false false)).
  reflexivity.
Defined.

(** ** Remote events on a collection *)

(** An instance of C7: the collection that holds ["x"] and an event for
    ["y"]. *)
Lemma childChanged_unknown_id_throws_witness :
  ∃ e, _childChanged (H := example_env)
         (Snapshot (DObj {[ "name" := str "b" ]}) "y")
         (ex_collection false false)
       = (inl e, ex_collection false false).
Proof.
  apply (childChanged_unknown_id_throws (H := example_env)).
  intros A child [= <-] Hin. cbn [models ex_collection name] in *.
  apply list_elem_of_singleton in Hin as ->. reflexivity.
Defined.

(** An instance of C10: the collection that holds [{id: "x", name: "a"}],
    with the flag set, and the event [{id: "x", name: "b"}]. *)
Lemma childChanged_ignores_suppressEvent_witness :
  ∃ c' evs item',
    _childChanged (H := example_env)
      (Snapshot (DObj {[ "id" := str "x"; "name" := str "b" ]}) "x")
      (with_suppressEvent true (ex_collection false false)) = (inr tt, c') ∧
    _suppressEvent c' = true ∧
    events c' = evs ∧
    models c' !! 0 = Some item' ∧
    attributes item' = {[ "id" := str "x"; "name" := str "b" ]} ∧
    EChangeAttr (str "x") "name" ∈ evs ∧
    EChange (str "x") ∈ evs.
Proof.
  destruct (childChanged_ignores_suppressEvent (H := example_env)
              (Snapshot (DObj {[ "id" := str "x"; "name" := str "b" ]}) "x")
              (ex_collection false false) true) as (_ & _ & Happlied).
  destruct (Happlied {[ "id" := str "x"; "name" := str "b" ]} 0
              (ex_member false) "name" (str "b"))
    as (c' & evs & item' & Hrun & Hflag & Hevs & Hi & Hattrs & Hattr & Hchange);
    [reflexivity..|].
  exists c', evs, item'. unfold id in Hattr, Hchange.
  rewrite Hattrs in Hattr, Hchange.
  split; [exact Hrun|]. split; [exact Hflag|]. split; [exact Hevs|].
  split; [exact Hi|]. split; [exact Hattrs|].
  split; [exact Hattr | exact Hchange].
Defined.

(** The failing input of C8: the collection holds ["x"], the store
    reports the scalar [5] at ["x"]. *)
Lemma scalar_child_changed_example :
  _childChanged (H := example_env) (Snapshot (DPrim (PNum 5)) "x")
    (ex_collection false false)
  = (inl TypeError, ex_collection false false).
Proof. reflexivity. Qed.

(** ** Local to remote *)

(** [[{name: "a"}, 5, {id: "x", name: "a"}]]: a key is generated for the
    first element, another for [5], and the assignment to [5] throws. *)
Lemma parseModels_assigns_ids_witness :
  _parseModels (H := example_env)
    [Raw {[ "name" := str "a" ]}; Scalar (PNum 5); Raw ex_x]
    Firebase_Collection
  = (inl TypeError, Collection [] false 2 [] []).
Proof.
  destruct (parseModels_assigns_ids (H := example_env)
              [Raw {[ "name" := str "a" ]}; Scalar (PNum 5); Raw ex_x]
              Firebase_Collection) as [_ Hthrow].
  destruct (Hthrow [Raw {[ "name" := str "a" ]}] (PNum 5) [Raw ex_x] eq_refl)
    as (parsed & n & Hparse & Hrun); [by repeat constructor|].
  vm_compute in Hparse. injection Hparse as _ <-. exact Hrun.
Defined.

(** [add([{name: "a"}, {id: "x", name: "a"}])] on a fresh collection. *)
Lemma add_sets_each_record_witness :
  add (H := example_env) [Raw {[ "name" := str "a" ]}; Raw ex_x] no_options
    Firebase_Collection
  = (inr [{[ "id" := str "-K0"; "name" := str "a" ]}; ex_x],
     Collection [] false 1
       [WSet (Child (str "-K0"))
          (DObj {[ "id" := str "-K0"; "name" := str "a" ]});
        WSet (Child (str "x")) (DObj ex_x)] []).
Proof.
  destruct (add_sets_each_record (H := example_env)
              [Raw {[ "name" := str "a" ]}; Raw ex_x] no_options
              Firebase_Collection) as [Hok _].
  destruct Hok as (parsed & n & Hparse & Hrun); [by repeat constructor|].
  vm_compute in Hparse. injection Hparse as <- <-. rewrite Hrun. reflexivity.
Defined.

(** [remove([{id: "x", name: "a"}], {silent: true})] on the collection
    that holds this record. *)
Lemma remove_nulls_each_record_witness :
  remove (H := example_env) [Raw ex_x] silent_true (ex_collection false false)
  = (inr [ex_x],
     Collection [ex_member false] true 0
       [WSet (Child (str "x")) (DPrim PNull)] []).
Proof.
  destruct (remove_nulls_each_record (H := example_env) [Raw ex_x] silent_true
              (ex_collection false false)) as [Hok _].
  destruct Hok as (parsed & n & Hparse & Hrun); [by repeat constructor|].
  vm_compute in Hparse. injection Hparse as <- <-. rewrite Hrun. reflexivity.
Defined.

(** [reset()] without argument on the collection that holds
    [{id: "x", name: "a"}]: the member is removed remotely, then the call
    throws. *)
Lemma reset_writes_then_notifies_witness :
  reset (H := example_env) [Scalar PUndefined] no_options
    (ex_collection false false)
  = (inl TypeError,
     Collection [ex_member false] true 0
       [WSet (Child (str "x")) (DPrim PNull)] []).
Proof.
  destruct (reset_writes_then_notifies (H := example_env) [Scalar PUndefined]
              no_options (ex_collection false false))
    as (removed & n1 & Hparse & Hcases).
  vm_compute in Hparse. injection Hparse as <- <-.
  cbv zeta in Hcases. destruct Hcases as [_ Hthrow].
  destruct (Hthrow [] PUndefined [] eq_refl) as (parsed & n & Hl & Hrun);
    [constructor|].
  vm_compute in Hl. injection Hl as _ <-. rewrite Hrun. reflexivity.
Defined.

(** ** What a record pushes *)



(** [unset("color")] on the record without autoSync. *)
Lemma one_shot_unset_leaves_tombstone_witness :
  ∃ r', record_unset (H := example_env) "color" (ex_record false false)
          = Some r' ∧
        attributes (this r') = {[ "color" := VPrim PNull ]} ∧
        r_writes r' = [] ∧
        Firebase_sync MUpdate (this r')
          = [WUpdate Self (DObj {[ "color" := VPrim PNull ]})].
Proof.
  destruct (one_shot_unset_leaves_tombstone (H := example_env) "color"
              (str "red") (ex_record false false))
    as (r' & Hrun & Hattrs & Hws & Hsync);
    [reflexivity | discriminate | reflexivity | discriminate |].
  exists r'. split; [exact Hrun|]. split; [rewrite Hattrs; reflexivity|].
  split; [exact Hws|]. rewrite Hsync. reflexivity.
Defined.

(** ** The "value" events of a record *)

(** [{name: "b"}] arrives at [ex_synced]: [color] goes, the id stays the
    name of the path. *)
Lemma value_event_mirrors_snapshot_witness :
  ∃ r', remote_value (H := example_env)
          (Snapshot (DObj {[ "name" := str "b" ]}) "abc") ex_synced
          = Some r' ∧
        attributes (this r') = {[ "id" := str "abc"; "name" := str "b" ]} ∧
        syncs (r_events r') = 1.
Proof.
  destruct (value_event_mirrors_snapshot (H := example_env)
              {[ "name" := str "b" ]} "abc" ex_synced eq_refl eq_refl)
    as (r' & Hrun & Hattrs & Hsyncs).
  exists r'. split; [exact Hrun|]. split; [rewrite Hattrs; reflexivity|].
  exact Hsyncs.
Defined.

(** The first value of the record built with the default
    [{color: "red"}]: [{name: "a"}] is completed with the default. *)
Lemma first_value_event_applies_defaults_witness :
  ∃ r', remote_value (H := example_env)
          (Snapshot (DObj {[ "name" := str "a" ]}) "abc")
          (ex_record true false) = Some r' ∧
        once_sync r' = false ∧
        attributes (this r') !! "color" = Some (str "red") ∧
        attributes (this r') !! "name" = Some (str "a").
Proof.
  destruct (first_value_event_applies_defaults (H := example_env)
              {[ "name" := str "a" ]} "abc" (ex_record true false)
              eq_refl eq_refl) as (r' & Hrun & Honce & Hattrs).
  exists r'. split; [exact Hrun|]. split; [exact Honce|].
  split; rewrite Hattrs; reflexivity.
Defined.

(** The value ["name"] arrives at [ex_synced]: the attribute [name] is
    set to [undefined], and its deletion is pushed. *)
Lemma scalar_value_event_names_an_attribute_witness :
  ∃ r', remote_value (H := example_env) (Snapshot (DPrim (PStr "name")) "abc")
          ex_synced = Some r' ∧
        attributes (this r')
          = {[ "id" := str "abc"; "color" := str "red";
               "name" := VPrim PUndefined ]} ∧
        r_writes r' = [WUpdate Self (DObj {[ "name" := VPrim PNull ]})].
Proof.
  destruct (scalar_value_event_names_an_attribute (H := example_env)
              (PStr "name") "abc" ex_synced eq_refl eq_refl eq_refl)
    as (r' & Hrun & Hattrs & _ & Hws).
  exists r'. split; [exact Hrun|].
  split; [rewrite Hattrs | rewrite Hws]; reflexivity.
Defined.

(** The node of [ex_synced] is deleted remotely: the record keeps its
    attributes. *)
Lemma null_value_event_changes_nothing_witness :
  remote_value (H := example_env) (Snapshot (DPrim PNull) "abc") ex_synced
  = Some (Record_ (this ex_synced) true {[ "color" := str "red" ]} false []
            [ESync]).
Proof.
  apply (null_value_event_changes_nothing (H := example_env) "abc" ex_synced);
    reflexivity.
Defined.

(** [{name: "b"}] arrives at [ex_synced], which holds the name ["a"]:
    ["b"] is pushed back. *)
Lemma value_event_is_pushed_back_witness :
  ∃ r' ws patch ws',
    remote_value (H := example_env)
      (Snapshot (DObj {[ "name" := str "b" ]}) "abc") ex_synced = Some r' ∧
    r_writes r' = ws ++ [WUpdate Self (DObj patch)] ++ ws' ∧
    patch !! "name" = Some (str "b").
Proof.
  destruct (value_event_is_pushed_back (H := example_env)
              {[ "name" := str "b" ]} "abc" ex_synced "name" (str "b"))
    as (r' & ws & patch & ws' & Hrun & Hws & Hpatch);
    [reflexivity | discriminate | reflexivity | reflexivity |].
  exists r', ws, patch, ws'. split; [exact Hrun|]. split; [exact Hws|].
  exact Hpatch.
Defined.

(** ** The patch of a member *)

(** A member [{a: 1}] with the snapshot [{}]: [a] is pushed. *)
Lemma diff_of_local_only_keys_witness :
  diff (H := example_env) ∅ {[ "a" := num 1 ]} !! "a" = Some (num 1).
Proof.
  destruct (diff_of_local_only_keys (H := example_env) ∅ {[ "a" := num 1 ]})
    as (Hscalar & _).
  apply (Hscalar "a" (PNum 1)); reflexivity.
Defined.

(** ** The events of a collection *)


(** The collection that holds [{id: "x", name: "a"}] only, and the events
    "child_added" and "child_removed" for this record. *)
Lemma added_and_removed_children_keep_ids_unique_witness :
  unique_ids (H := example_env)
    (_childAdded (H := example_env) (Snapshot (DObj ex_x) "x")
       (ex_collection false false)).2 ∧
  unique_ids (H := example_env)
    (_childRemoved (H := example_env) (Snapshot (DObj ex_x) "x")
       (ex_collection false false)).2.
Proof.
  apply (added_and_removed_children_keep_ids_unique (H := example_env)).
  apply NoDup_singleton.
Defined.

(** "child_removed" for the one member of the collection, an echo being
    awaited. *)
Lemma childRemoved_takes_the_member_out_witness :
  _childRemoved (H := example_env) (Snapshot (DObj ex_x) "x")
    (ex_collection false true)
  = (inr tt, Collection [] false 0 [] [ERemove (str "x")]).
Proof.
  destruct (childRemoved_takes_the_member_out (H := example_env) ex_x "x"
              (ex_collection false true) 0 (ex_member false))
    as (Hrun & _ & _).
  - apply NoDup_singleton.
  - intros Hin%list_elem_of_singleton. discriminate Hin.
  - reflexivity.
  - reflexivity.
  - exact Hrun.
Defined.

(** "child_changed" with [{name: "b"}] for the one member of the
    collection: nothing is written, one member stays. *)
Lemma childChanged_touches_one_member_witness :
  writes (_childChanged (H := example_env)
            (Snapshot (DObj {[ "name" := str "b" ]}) "x")
            (ex_collection false false)).2 = [] ∧
  length (models (_childChanged (H := example_env)
                    (Snapshot (DObj {[ "name" := str "b" ]}) "x")
                    (ex_collection false false)).2) = 1.
Proof.
  destruct (childChanged_touches_one_member (H := example_env)
              (Snapshot (DObj {[ "name" := str "b" ]}) "x")
              (ex_collection false false)) as (Hws & _ & Hlen & _).
  split; [exact Hws | exact Hlen].
Defined.

(** After that event the member holds [{id: "x", name: "b"}], and so does
    its stored snapshot. *)
Lemma childChanged_then_nothing_to_push_witness :
  ∃ c' item',
    _childChanged (H := example_env)
      (Snapshot (DObj {[ "name" := str "b" ]}) "x")
      (ex_collection false false) = (inr tt, c') ∧
    models c' !! 0 = Some item' ∧
    toJSON item' = {[ "id" := str "x"; "name" := str "b" ]} ∧
    Collection__updateModel (H := example_env) item' = [].
Proof.
  destruct (childChanged_then_nothing_to_push (H := example_env)
              {[ "name" := str "b" ]} "x" (ex_collection false false) 0
              (ex_member false))
    as (c' & item' & Hrun & Hi & _ & Hjson & _ & Hpush); [reflexivity|].
  exists c', item'. split; [exact Hrun|]. split; [exact Hi|].
  split; [rewrite Hjson; reflexivity | exact Hpush].
Defined.
